(** * nil-triggers: the heuristic trigger library of the nil protocol

    A shallow embedding of [packages/nil-triggers/index.js]: the tokeniser,
    the cosine similarity scorer, the four detectors ([detectLoop],
    [detectVelocityCollapse], [detectScopeCreep], [detectSaturation]) and the
    aggregator [check], followed by the properties the design document states
    about them.

    Numbers are the kernel's binary64 floats, which is what a JavaScript
    Number is: [NaN], the infinities and rounding are those of the source.
    Options that the source uses as counts or array indices ([threshold],
    [windowSize], [assistantResponseThreshold], [minAssistantLength]) are
    integers ([Z]); a string is a sequence of code units below 256. *)

From Stdlib Require Import ZArith List String Ascii Bool Lia Permutation.
From Stdlib Require Import Floats.
Import ListNotations.

Set Warnings "-inexact-float".

Local Open Scope string_scope.
Local Open Scope list_scope.
Local Open Scope Z_scope.

(* ================================================================== *)
(** * The fragment of JavaScript the library runs                       *)
(* ================================================================== *)

Module JS.

(** ** Exceptions

    A computation either returns a value or throws. *)

Inductive exn : Type :=
| TypeError.   (* reading a property of [undefined] *)

Inductive result (A : Type) : Type :=
| Ok (a : A)
| Throw (e : exn).

Arguments Ok {A} a.
Arguments Throw {A} e.

Definition bind {A B : Type} (c : result A) (k : A -> result B) : result B :=
  match c with
  | Ok a => k a
  | Throw e => Throw e
  end.

(** ** Numbers *)

(** The Number of an array or string length.  Lengths are below 2^53 in
    JavaScript, where the conversion is exact. *)
Definition num_of_nat (n : nat) : float :=
  PrimFloat.of_uint63 (Uint63.of_Z (Z.of_nat n)).

(** [a >= b], [a > b], [a <= b] and [a === b] on Numbers: every comparison
    with [NaN] is false, and [+0 === -0]. *)
Definition ge (a b : float) : bool := PrimFloat.leb b a.
Definition gt (a b : float) : bool := PrimFloat.ltb b a.
Definition le (a b : float) : bool := PrimFloat.leb a b.
Definition strict_eq (a b : float) : bool := PrimFloat.eqb a b.

(** ** Arrays *)

(** [arr[i]]: [None] stands for [undefined]. *)
Definition index {A : Type} (arr : list A) (i : Z) : option A :=
  if i <? 0 then None else nth_error arr (Z.to_nat i).

(** [x.f] where [x] came out of an array: a property read on [undefined]
    throws. *)
Definition prop {A B : Type} (x : option A) (f : A -> B) : result B :=
  match x with
  | Some a => Ok (f a)
  | None => Throw TypeError
  end.

(** The relative index of [Array.prototype.slice]: a negative argument
    counts from the end, and the result is clamped to [0 .. len]. *)
Definition rel_index (len i : Z) : Z :=
  if i <? 0 then Z.max (len + i) 0 else Z.min i len.

(** [arr.slice(start, end)]; [fin = None] is [arr.slice(start)]. *)
Definition slice {A : Type} (arr : list A) (start : Z) (fin : option Z) : list A :=
  let len := Z.of_nat (List.length arr) in
  let k := rel_index len start in
  let final := match fin with
               | None => len
               | Some e => rel_index len e
               end in
  firstn (Z.to_nat (Z.max (final - k) 0)) (skipn (Z.to_nat k) arr).

(** [for (let i = from; i < from + count; i++) acc.push(body(i))]. *)
Fixpoint for_push {A : Type} (body : nat -> result A) (i count : nat)
    (acc : list A) : result (list A) :=
  match count with
  | O => Ok acc
  | S count' =>
      bind (body i) (fun x => for_push body (S i) count' (acc ++ [x]))
  end.

(** ** Strings *)

Definition code (c : ascii) : N := N_of_ascii c.

Definition in_range (lo hi : N) (c : ascii) : bool :=
  ((lo <=? code c) && (code c <=? hi))%N.

(** [String.prototype.toLowerCase] on code units below 256: A-Z, and the
    Latin-1 capitals U+00C0-U+00DE except the multiplication sign U+00D7,
    move up by 32.  Characters from U+0100 on are outside the model; some of
    them lowercase to ASCII letters (U+212A to k, U+0130 to i followed by
    U+0307). *)
Definition lower_char (c : ascii) : ascii :=
  if in_range 65 90 c then ascii_of_N (code c + 32)
  else if in_range 192 222 c && negb (code c =? 215)%N then ascii_of_N (code c + 32)
  else c.

Fixpoint toLowerCase (s : string) : string :=
  match s with
  | EmptyString => EmptyString
  | String c s' => String (lower_char c) (toLowerCase s')
  end.

(** [s.includes(pat)]. *)
Fixpoint includes (s pat : string) : bool :=
  if String.prefix pat s then true
  else match s with
       | EmptyString => false
       | String _ s' => includes s' pat
       end.

(** The regular expression classes [\w] and [\s] (no [u] or [i] flag), on
    code units below 256. *)
Definition is_word (c : ascii) : bool :=
  in_range 48 57 c || in_range 65 90 c || in_range 97 122 c || (code c =? 95)%N.

Definition is_space (c : ascii) : bool :=
  in_range 9 13 c || (code c =? 32)%N || (code c =? 160)%N.

(** [s.replace(/[^\w\s]/g, empty)]: every character that is neither a
    word character nor white space is deleted. *)
Fixpoint strip_punctuation (s : string) : string :=
  match s with
  | EmptyString => EmptyString
  | String c s' =>
      if is_word c || is_space c then String c (strip_punctuation s')
      else strip_punctuation s'
  end.

(** [s.split(/\s+/)]: the pieces between maximal runs of white space, the
    empty pieces at either end included; [skipping] is true inside a run and
    [cur] is the piece read so far. *)
Fixpoint split_spaces_from (skipping : bool) (cur s : string) : list string :=
  match s with
  | EmptyString => [cur]
  | String c s' =>
      if is_space c then
        if skipping then split_spaces_from true cur s'
        else cur :: split_spaces_from true EmptyString s'
      else split_spaces_from false (cur ++ String c EmptyString)%string s'
  end.

Definition split_spaces (s : string) : list string :=
  split_spaces_from false EmptyString s.

(** [Boolean(s)] for a string. *)
Definition truthy_string (s : string) : bool :=
  negb (String.eqb s EmptyString).

(** ** Plain objects used as maps

    [const map = {}] is an ordinary object: besides its own properties it
    has those of [Object.prototype], so [({})["constructor"]] is the
    [Object] function and not [undefined].  Three kinds of value can
    therefore be read from a frequency map: a Number; a built-in object
    inherited under a prototype key; and the string that [+ 1] makes of such
    an object, its text followed by a digit, as in
    ["function Object() { [native code] }1"]. *)

Inductive value : Type :=
| VNum (x : float)
| VObj (key : string)             (* what [({})[key]] inherits *)
| VStr (key : string) (ones : nat). (* its text followed by [ones] digits 1 *)

(** The property names of [Object.prototype]. *)
Definition prototype_keys : list string :=
  [ "constructor"; "hasOwnProperty"; "isPrototypeOf"; "propertyIsEnumerable";
    "toLocaleString"; "toString"; "valueOf"; "__proto__";
    "__defineGetter__"; "__defineSetter__"; "__lookupGetter__"; "__lookupSetter__" ].

Definition mem (k : string) (ks : list string) : bool :=
  existsb (String.eqb k) ks.

(** Own enumerable properties, in insertion order. *)
Definition object : Type := list (string * value).

Definition empty_object : object := [].

Fixpoint own (o : object) (k : string) : option value :=
  match o with
  | [] => None
  | (k', v) :: o' => if String.eqb k k' then Some v else own o' k
  end.

(** [o[k]]: an own property, else what the prototype has, else [undefined]. *)
Definition get (o : object) (k : string) : option value :=
  match own o k with
  | Some v => Some v
  | None => if mem k prototype_keys then Some (VObj k) else None
  end.

Fixpoint put_own (o : object) (k : string) (v : value) : object :=
  match o with
  | [] => [(k, v)]
  | (k', v') :: o' =>
      if String.eqb k k' then (k', v) :: o' else (k', v') :: put_own o' k v
  end.

(** [o[k] = v] for a primitive [v]: the [__proto__] setter ignores a value
    that is not an object; any other key becomes (or stays) an own
    property. *)
Definition set (o : object) (k : string) (v : value) : object :=
  if String.eqb k "__proto__" then o else put_own o k v.

(** [x || 0]: [undefined], [0], [-0] and [NaN] are falsy; objects and
    non-empty strings are truthy. *)
Definition or_zero (x : option value) : value :=
  match x with
  | None => VNum 0%float
  | Some (VNum n) =>
      if PrimFloat.eqb n 0%float || PrimFloat.is_nan n then VNum 0%float else VNum n
  | Some v => v
  end.

(** [v + 1]: Number addition, or string concatenation once [v] is an
    object (whose primitive is its text) or a string. *)
Definition plus_one (v : value) : value :=
  match v with
  | VNum n => VNum (PrimFloat.add n 1%float)
  | VObj k => VStr k 1
  | VStr k ones => VStr k (S ones)
  end.

(** [ToNumber], as applied by [*]: an object is first turned into its
    text, and that text, with or without trailing digits, is no numeric
    literal. *)
Definition to_number (v : value) : float :=
  match v with
  | VNum n => n
  | VObj _ => PrimFloat.nan
  | VStr _ _ => PrimFloat.nan
  end.

(** An array index as a property key: the canonical decimal form of an
    integer in [0 .. 2^32 - 2]. *)
Fixpoint digits_value (acc : N) (s : string) : option N :=
  match s with
  | EmptyString => Some acc
  | String c s' =>
      if in_range 48 57 c then digits_value (10 * acc + (code c - 48))%N s'
      else None
  end.

Definition array_index (k : string) : option N :=
  match k with
  | EmptyString => None
  | String c rest =>
      if (code c =? 48)%N then
        match rest with
        | EmptyString => Some 0%N
        | String _ _ => None
        end
      else
        match digits_value 0%N k with
        | Some n => if (n <=? 4294967294)%N then Some n else None
        | None => None
        end
  end.

Fixpoint insert_index (n : N) (k : string) (sorted : list (N * string)) : list (N * string) :=
  match sorted with
  | [] => [(n, k)]
  | (n', k') :: rest =>
      if (n <=? n')%N then (n, k) :: sorted else (n', k') :: insert_index n k rest
  end.

Fixpoint index_keys (o : object) : list (N * string) :=
  match o with
  | [] => []
  | (k, _) :: o' =>
      match array_index k with
      | Some n => insert_index n k (index_keys o')
      | None => index_keys o'
      end
  end.

Fixpoint named_keys (o : object) : list string :=
  match o with
  | [] => []
  | (k, _) :: o' =>
      match array_index k with
      | Some _ => named_keys o'
      | None => k :: named_keys o'
      end
  end.

(** [Object.keys(o)]: array indices in ascending order, then the other
    keys in insertion order. *)
Definition keys (o : object) : list string :=
  map snd (index_keys o) ++ named_keys o.

(** [new Set(xs)] read back in iteration order: first occurrences. *)
Fixpoint set_of_from (seen xs : list string) : list string :=
  match xs with
  | [] => []
  | x :: xs' =>
      if mem x seen then set_of_from seen xs'
      else x :: set_of_from (x :: seen) xs'
  end.

Definition set_of (xs : list string) : list string := set_of_from [] xs.

End JS.

Notation "x <- c ;; k" := (JS.bind c (fun x => k))
  (at level 61, c at next level, right associativity).

Import JS.

(* ================================================================== *)
(** * Data model                                                        *)
(* ================================================================== *)

Inductive Role : Type := user | assistant.

Definition role_eqb (a b : Role) : bool :=
  match a, b with
  | user, user | assistant, assistant => true
  | _, _ => false
  end.

Record Message : Type := mkMessage {
  role : Role;
  content : string;
  timestamp : float   (* Unix ms *)
}.

Definition is_user (m : Message) : bool := role_eqb (role m) user.
Definition is_assistant (m : Message) : bool := role_eqb (role m) assistant.

(** [m.content.length] as a Number. *)
Definition content_length (m : Message) : float :=
  num_of_nat (String.length (content m)).

(* ================================================================== *)
(** * Internals                                                         *)
(* ================================================================== *)

(** Simple word-level tokeniser. *)
Definition tokenise (text : string) : list string :=
  filter truthy_string (split_spaces (strip_punctuation (toLowerCase text))).

(** [freq]: [for (const t of tokens) map[t] = (map[t] || 0) + 1]. *)
Definition freq (tokens : list string) : object :=
  fold_left (fun map t => set map t (plus_one (or_zero (get map t))))
            tokens empty_object.

Record Sums : Type := mkSums { dot : float; magA : float; magB : float }.

(** One turn of the loop over [allKeys]: [dot += va * vb; magA += va * va;
    magB += vb * vb]. *)
Definition accumulate_key (a b : object) (acc : Sums) (key : string) : Sums :=
  let va := to_number (or_zero (get a key)) in
  let vb := to_number (or_zero (get b key)) in
  mkSums (PrimFloat.add (dot acc) (PrimFloat.mul va vb))
         (PrimFloat.add (magA acc) (PrimFloat.mul va va))
         (PrimFloat.add (magB acc) (PrimFloat.mul vb vb)).

Definition accumulate (a b : object) (allKeys : list string) : Sums :=
  fold_left (accumulate_key a b) allKeys (mkSums 0%float 0%float 0%float).

(** Cosine similarity between two token arrays. *)
Definition cosineSimilarity (tokensA tokensB : list string) : float :=
  let a := freq tokensA in
  let b := freq tokensB in
  let allKeys := set_of (keys a ++ keys b) in
  let sums := accumulate a b allKeys in
  let denom := PrimFloat.mul (PrimFloat.sqrt (magA sums)) (PrimFloat.sqrt (magB sums)) in
  if strict_eq denom 0%float then 0%float else PrimFloat.div (dot sums) denom.

(** Time gaps between consecutive messages. *)
Definition getGaps (messages : list Message) : result (list float) :=
  for_push
    (fun i =>
       t1 <- prop (index messages (Z.of_nat i)) timestamp ;;
       t0 <- prop (index messages (Z.of_nat i - 1)) timestamp ;;
       Ok (PrimFloat.sub t1 t0))
    1 (List.length messages - 1) [].

(* ================================================================== *)
(** * Options                                                           *)
(* ================================================================== *)

(** Every option may be absent; a detector called without an options
    record, or with a record lacking a field, uses the default.  The options
    used as counts and array indices are integers here; a fractional or
    [NaN] count (with which [substantiveResponses[threshold - 1]] is
    [undefined] although the length test has passed) is outside the
    model. *)

Record LoopOptions : Type := mkLoopOptions {
  threshold : option Z;
  similarityFloor : option float
}.

Record VelocityCollapseOptions : Type := mkVelocityCollapseOptions {
  lengthDropRatio : option float;
  frequencyDropRatio : option float;
  vc_windowSize : option Z
}.

Record ScopeCreepOptions : Type := mkScopeCreepOptions {
  sc_windowSize : option Z;
  growthRatio : option float
}.

Record SaturationOptions : Type := mkSaturationOptions {
  assistantResponseThreshold : option Z;
  minAssistantLength : option Z;
  requestPatterns : option (list string)
}.

Record CheckOptions : Type := mkCheckOptions {
  loop : option LoopOptions;
  velocityCollapse : option VelocityCollapseOptions;
  scopeCreep : option ScopeCreepOptions;
  saturation : option SaturationOptions
}.

(** [const { f = d } = options] with [options = {}] by default. *)
Definition field {O A : Type} (options : option O) (f : O -> option A) (d : A) : A :=
  match options with
  | Some o => match f o with
              | Some a => a
              | None => d
              end
  | None => d
  end.

Definition default_requestPatterns : list string :=
  [ "can you also"; "what about"; "another"; "more"; "one more";
    "anything else"; "what else"; "give me"; "how about"; "and also";
    "additionally" ].

(* ================================================================== *)
(** * Detectors                                                         *)
(* ================================================================== *)

(** [arr.reduce((sum, m) => sum + m.content.length, 0)]. *)
Definition sum_content_length (arr : list Message) : float :=
  fold_left (fun sum m => PrimFloat.add sum (content_length m)) arr 0%float.

(** [arr.reduce((a, b) => a + b, 0)]. *)
Definition sum_numbers (arr : list float) : float :=
  fold_left (fun a b => PrimFloat.add a b) arr 0%float.

(** Loop detection. *)
Definition detectLoop (messages : list Message) (options : option LoopOptions)
    : result bool :=
  let threshold := field options threshold 3 in
  let similarityFloor := field options similarityFloor 0.6%float in
  let userMessages := slice (filter is_user messages) (- threshold - 1) None in
  if Z.of_nat (List.length userMessages) <? threshold then Ok false
  else
    let recent := slice userMessages (- threshold) None in
    similarities <-
      for_push
        (fun i =>
           prev <- prop (index recent (Z.of_nat i - 1)) content ;;
           cur <- prop (index recent (Z.of_nat i)) content ;;
           Ok (cosineSimilarity (tokenise prev) (tokenise cur)))
        1 (List.length recent - 1) [] ;;
    Ok (forallb (fun s => ge s similarityFloor) similarities).

(** The Number that the loop of [detectLoop] pushes for two neighbouring
    messages: [cosineSimilarity(tokenise(prev.content),
    tokenise(cur.content))]. *)
Definition pushed_similarity (prev cur : Message) : float :=
  cosineSimilarity (tokenise (content prev)) (tokenise (content cur)).

(** Velocity collapse. *)
Definition detectVelocityCollapse (messages : list Message)
    (options : option VelocityCollapseOptions) : result bool :=
  let lengthDropRatio := field options lengthDropRatio 0.3%float in
  let frequencyDropRatio := field options frequencyDropRatio 3%float in
  let windowSize := field options vc_windowSize 4 in
  let userMessages := filter is_user messages in
  if Z.of_nat (List.length userMessages) <? windowSize * 2 then Ok false
  else
    let earlier := slice userMessages 0 (Some (- windowSize)) in
    let recent := slice userMessages (- windowSize) None in
    (* Check length collapse *)
    let earlierAvgLength :=
      PrimFloat.div (sum_content_length earlier) (num_of_nat (List.length earlier)) in
    let recentAvgLength :=
      PrimFloat.div (sum_content_length recent) (num_of_nat (List.length recent)) in
    if gt earlierAvgLength 0%float
       && le (PrimFloat.div recentAvgLength earlierAvgLength) lengthDropRatio
    then Ok true
    else
      (* Check frequency collapse *)
      earlierGaps <- getGaps earlier ;;
      recentGaps <- getGaps recent ;;
      if (List.length earlierGaps =? 0)%nat || (List.length recentGaps =? 0)%nat
      then Ok false
      else
        let earlierAvgGap :=
          PrimFloat.div (sum_numbers earlierGaps) (num_of_nat (List.length earlierGaps)) in
        let recentAvgGap :=
          PrimFloat.div (sum_numbers recentGaps) (num_of_nat (List.length recentGaps)) in
        if gt earlierAvgGap 0%float
           && ge (PrimFloat.div recentAvgGap earlierAvgGap) frequencyDropRatio
        then Ok true
        else Ok false.

(** [m.content.includes("?")]. *)
Definition has_question (m : Message) : bool := includes (content m) "?".

(** Scope creep. *)
Definition detectScopeCreep (messages : list Message)
    (options : option ScopeCreepOptions) : result bool :=
  let windowSize := field options sc_windowSize 5 in
  let growthRatio := field options growthRatio 1.5%float in
  let userMessages := filter is_user messages in
  if Z.of_nat (List.length userMessages) <? windowSize * 2 then Ok false
  else
    let earlier := slice userMessages (- windowSize * 2) (Some (- windowSize)) in
    let recent := slice userMessages (- windowSize) None in
    let earlierAvgLength :=
      PrimFloat.div (sum_content_length earlier) (num_of_nat (List.length earlier)) in
    let recentAvgLength :=
      PrimFloat.div (sum_content_length recent) (num_of_nat (List.length recent)) in
    (* Messages getting longer suggests expanding scope *)
    if ge (PrimFloat.div recentAvgLength earlierAvgLength) growthRatio then
      let recentQuestions := List.length (filter has_question recent) in
      let earlierQuestions := List.length (filter has_question earlier) in
      if (earlierQuestions <=? recentQuestions)%nat then Ok true else Ok false
    else Ok false.

(** The test of [requestingMore]: the lowercased content includes some
    pattern. *)
Definition requests_more (requestPatterns : list string) (m : Message) : bool :=
  let lower := toLowerCase (content m) in
  existsb (fun pattern => includes lower pattern) requestPatterns.

(** Saturation. *)
Definition detectSaturation (messages : list Message)
    (options : option SaturationOptions) : result bool :=
  let assistantResponseThreshold := field options assistantResponseThreshold 3 in
  let minAssistantLength := field options minAssistantLength 200 in
  let requestPatterns := field options requestPatterns default_requestPatterns in
  let substantiveResponses :=
    filter (fun m => is_assistant m
                     && (minAssistantLength <=? Z.of_nat (String.length (content m))))
           messages in
  if Z.of_nat (List.length substantiveResponses) <? assistantResponseThreshold
  then Ok false
  else
    (* Look at user messages after the threshold was met *)
    thresholdTimestamp <-
      prop (index substantiveResponses (assistantResponseThreshold - 1)) timestamp ;;
    let userMessagesAfterThreshold :=
      filter (fun m => is_user m && gt (timestamp m) thresholdTimestamp) messages in
    if (List.length userMessagesAfterThreshold =? 0)%nat then Ok false
    else
      (* Check if recent user messages are requesting more of the same *)
      let requestingMore :=
        filter (requests_more requestPatterns) userMessagesAfterThreshold in
      Ok (2 <=? List.length requestingMore)%nat.

(* ================================================================== *)
(** * Aggregator                                                        *)
(* ================================================================== *)

Record Result : Type := mkResult {
  triggered : bool;
  signals : list string
}.

(** [if (fired) signals.push(tag)]. *)
Definition push_if (fired : bool) (tag : string) (signals : list string) : list string :=
  if fired then signals ++ [tag] else signals.

(** [options.f] where [options = {}] by default. *)
Definition sub_options {A : Type} (options : option CheckOptions)
    (f : CheckOptions -> option A) : option A :=
  match options with
  | Some o => f o
  | None => None
  end.

(** Combined check. Runs all detectors and returns which fired. *)
Definition check (messages : list Message) (options : option CheckOptions)
    : result Result :=
  let signals := [] in
  fired <- detectLoop messages (sub_options options loop) ;;
  let signals := push_if fired "loop" signals in
  fired <- detectVelocityCollapse messages (sub_options options velocityCollapse) ;;
  let signals := push_if fired "velocity-collapse" signals in
  fired <- detectScopeCreep messages (sub_options options scopeCreep) ;;
  let signals := push_if fired "scope-creep" signals in
  fired <- detectSaturation messages (sub_options options saturation) ;;
  let signals := push_if fired "saturation" signals in
  Ok (mkResult (0 <? List.length signals)%nat signals).

(* ================================================================== *)
(** * The vocabulary of the design document                             *)
(* ================================================================== *)

(** These definitions follow the words of the design document, not the
    code: windows are named by how many messages they hold rather than by
    [slice] arguments, and pairs and counts are read off the list. *)

Module Spec.

(** The user-authored messages of a conversation, in order. *)
Definition user_messages (conversation : list Message) : list Message :=
  filter is_user conversation.

(** The last [n] elements, or all of them when there are fewer. *)
Definition last_n {A : Type} (n : nat) (l : list A) : list A :=
  skipn (List.length l - n) l.

(** Everything before the last [n] elements. *)
Definition all_but_last_n {A : Type} (n : nat) (l : list A) : list A :=
  firstn (List.length l - n) l.

(** The consecutive pairs of a list, in order. *)
Fixpoint consecutive_pairs {A : Type} (l : list A) : list (A * A) :=
  match l with
  | [] => []
  | x :: tl =>
      match tl with
      | [] => []
      | y :: _ => (x, y) :: consecutive_pairs tl
      end
  end.

(** How many elements satisfy [p]. *)
Fixpoint count {A : Type} (p : A -> bool) (l : list A) : nat :=
  match l with
  | [] => O
  | x :: l' => if p x then S (count p l') else count p l'
  end.

(** The term-frequency vector of a token sequence: how many times each
    term occurs in it. *)
Definition term_frequency (tokens : list string) (term : string) : nat :=
  count (String.eqb term) tokens.

(** Each term of a list once. *)
Fixpoint distinct (terms : list string) : list string :=
  match terms with
  | [] => []
  | t :: rest => t :: filter (fun u => negb (String.eqb t u)) (distinct rest)
  end.

(** The union of the terms observed in two token sequences. *)
Definition observed_terms (a b : list string) : list string :=
  distinct (a ++ b).

(** Dot product of two frequency vectors over the observed terms.  The
    counts are natural numbers, so the sum is exact. *)
Definition dot_product (a b : list string) : nat :=
  list_sum (map (fun term => term_frequency a term * term_frequency b term)%nat
                (observed_terms a b)).

(** Euclidean norm of a frequency vector. *)
Definition norm (a : list string) : float :=
  PrimFloat.sqrt (num_of_nat (dot_product a a)).

(** Cosine similarity: the dot product of the two frequency vectors over
    the product of their norms, and 0 if either norm is zero. *)
Definition cosine_similarity (a b : list string) : float :=
  if strict_eq (norm a) 0%float || strict_eq (norm b) 0%float then 0%float
  else PrimFloat.div (num_of_nat (dot_product a b))
                     (PrimFloat.mul (norm a) (norm b)).

(** Cosine similarity of two messages over their tokenised content. *)
Definition similarity (x y : Message) : float :=
  cosine_similarity (tokenise (content x)) (tokenise (content y)).

(** A consecutive pair meets or exceeds the floor. *)
Definition similar (floor : float) (xy : Message * Message) : Prop :=
  ge (similarity (fst xy) (snd xy)) floor = true.

(** The mean of a list of numbers: their sum over their count. *)
Definition mean (xs : list float) : float :=
  PrimFloat.div (sum_numbers xs) (num_of_nat (List.length xs)).

(** Mean character length of a group of messages. *)
Definition mean_length (group : list Message) : float :=
  mean (map content_length group).

(** Consecutive-timestamp gaps within one group. *)
Definition gaps (group : list Message) : list float :=
  map (fun xy => PrimFloat.sub (timestamp (snd xy)) (timestamp (fst xy)))
      (consecutive_pairs group).

(** How many messages of a group contain a question mark. *)
Definition questions (group : list Message) : nat :=
  count has_question group.

(** Velocity collapse, length check. *)
Definition length_collapse (earlier recent : list Message) (lengthDropRatio : float) : Prop :=
  gt (mean_length earlier) 0%float = true
  /\ le (PrimFloat.div (mean_length recent) (mean_length earlier)) lengthDropRatio = true.

(** Velocity collapse, frequency check. *)
Definition frequency_collapse (earlier recent : list Message) (frequencyDropRatio : float) : Prop :=
  gaps earlier <> [] /\ gaps recent <> []
  /\ gt (mean (gaps earlier)) 0%float = true
  /\ ge (PrimFloat.div (mean (gaps recent)) (mean (gaps earlier))) frequencyDropRatio = true.

(** The two adjacent windows of scope creep. *)
Definition recent_window (windowSize : Z) (conversation : list Message) : list Message :=
  last_n (Z.to_nat windowSize) (user_messages conversation).

Definition earlier_window (windowSize : Z) (conversation : list Message) : list Message :=
  last_n (Z.to_nat windowSize)
         (all_but_last_n (Z.to_nat windowSize) (user_messages conversation)).

(** Scope creep as the design document words it: (a) the recent mean is at
    least [growthRatio] times the earlier mean, and (b) the recent window
    has at least as many questions as the earlier one. *)
Definition scope_creep_as_worded (windowSize : Z) (growthRatio : float)
    (conversation : list Message) : Prop :=
  ge (mean_length (recent_window windowSize conversation))
     (PrimFloat.mul growthRatio (mean_length (earlier_window windowSize conversation))) = true
  /\ (questions (earlier_window windowSize conversation)
      <= questions (recent_window windowSize conversation))%nat.

(** Scope creep by the quotient of the means. *)
Definition scope_creep_by_quotient (windowSize : Z) (growthRatio : float)
    (conversation : list Message) : Prop :=
  ge (PrimFloat.div (mean_length (recent_window windowSize conversation))
                    (mean_length (earlier_window windowSize conversation)))
     growthRatio = true
  /\ (questions (earlier_window windowSize conversation)
      <= questions (recent_window windowSize conversation))%nat.

(** A substantive response: an assistant message of at least
    [minAssistantLength] characters. *)
Definition substantive (minAssistantLength : Z) (m : Message) : bool :=
  is_assistant m && (minAssistantLength <=? Z.of_nat (String.length (content m))).

(** The [k]-th substantive response in conversation order, counting
    from 1. *)
Fixpoint nth_substantive (minAssistantLength : Z) (k : nat)
    (conversation : list Message) : option Message :=
  match conversation with
  | [] => None
  | m :: rest =>
      if substantive minAssistantLength m then
        match k with
        | O => None
        | S O => Some m
        | S k' => nth_substantive minAssistantLength k' rest
        end
      else nth_substantive minAssistantLength k rest
  end.

(** A user message, strictly later than [t], whose lowercased content
    contains some configured pattern. *)
Definition more_request (requestPatterns : list string) (t : float) (m : Message) : Prop :=
  role m = user
  /\ gt (timestamp m) t = true
  /\ exists pattern, In pattern requestPatterns
                     /\ includes (toLowerCase (content m)) pattern = true.

(** At least two messages of the conversation satisfy [P]. *)
Definition at_least_two (P : Message -> Prop) (conversation : list Message) : Prop :=
  exists i j x y, (i < j)%nat
    /\ nth_error conversation i = Some x /\ nth_error conversation j = Some y
    /\ P x /\ P y.

(** The fixed order of the tags. *)
Definition tags : list string :=
  [ "loop"; "velocity-collapse"; "scope-creep"; "saturation" ].

(** [s] is [l] with some elements left out. *)
Inductive subsequence {A : Type} : list A -> list A -> Prop :=
| sub_nil : subsequence [] []
| sub_skip : forall s x l, subsequence s l -> subsequence s (x :: l)
| sub_keep : forall s x l, subsequence s l -> subsequence (x :: s) (x :: l).

(** The detector behind a tag, applied with its own options sub-record. *)
Definition detector (tag : string) (conversation : list Message)
    (options : option CheckOptions) : result bool :=
  if String.eqb tag "loop" then
    detectLoop conversation (sub_options options loop)
  else if String.eqb tag "velocity-collapse" then
    detectVelocityCollapse conversation (sub_options options velocityCollapse)
  else if String.eqb tag "scope-creep" then
    detectScopeCreep conversation (sub_options options scopeCreep)
  else
    detectSaturation conversation (sub_options options saturation).

End Spec.

(* ================================================================== *)
(** * Example conversations                                             *)
(* ================================================================== *)

(** The conversations of the package's test file, and the degenerate ones
    the properties below are tried on. *)

Definition three_requests : list Message :=
  [ mkMessage user "Can you make the logo bigger?" 0%float;
    mkMessage assistant "Here's the updated logo." 30000%float;
    mkMessage user "Can you make the logo a bit bigger?" 60000%float;
    mkMessage assistant "Here's another version." 90000%float;
    mkMessage user "Make the logo bigger please" 120000%float ].


Definition user_says (text : string) : Message := mkMessage user text 0%float.

(** Ten empty user messages. *)
Definition ten_empty : list Message := repeat (user_says EmptyString) 10.

(** Five empty user messages, then five that say "more". *)
Definition silence_then_more : list Message :=
  repeat (user_says EmptyString) 5 ++ repeat (user_says "more") 5.

(** Five short user messages, then five long ones with a question. *)
Definition growing_requests : list Message :=
  repeat (user_says "ok") 5 ++ repeat (user_says "and what about the rest?") 5.

(** Four paragraphs, then four one-word replies. *)
Definition collapsing_replies : list Message :=
  [ mkMessage user "I've been thinking about the restructure and I have several ideas about how we might approach the timeline for the project rollout." 0%float;
    mkMessage assistant "Response." 15000%float;
    mkMessage user "The first consideration is around stakeholder alignment, which I think requires a phased approach starting with the leadership team." 30000%float;
    mkMessage assistant "Response." 45000%float;
    mkMessage user "Another key factor is the budget allocation across Q3 and Q4 which will determine how aggressively we can pursue the expansion." 60000%float;
    mkMessage assistant "Response." 75000%float;
    mkMessage user "And also the hiring plan needs revisiting given the new targets and the constraints we discussed last week." 90000%float;
    mkMessage assistant "Response." 105000%float;
    mkMessage user "yeah" 120000%float;
    mkMessage assistant "Response." 135000%float;
    mkMessage user "ok" 150000%float;
    mkMessage assistant "Response." 165000%float;
    mkMessage user "sure" 180000%float;
    mkMessage assistant "Response." 195000%float;
    mkMessage user "fine" 210000%float ].

Definition letters (c : string) (n : nat) : string := String.concat EmptyString (repeat c n).

(** Four long answers, each followed by a request for more. *)
Definition asking_for_more : list Message :=
  [ mkMessage user "Compare these two job offers for me" 0%float;
    mkMessage assistant (letters "A" 300) 30000%float;
    mkMessage user "What about the benefits?" 60000%float;
    mkMessage assistant (letters "B" 300) 90000%float;
    mkMessage user "Can you also look at commute times?" 120000%float;
    mkMessage assistant (letters "C" 300) 150000%float;
    mkMessage user "What about career growth?" 180000%float;
    mkMessage assistant (letters "D" 300) 210000%float;
    mkMessage user "Can you also compare the company cultures?" 240000%float;
    mkMessage user "And what about work-life balance? Give me more on that" 270000%float ].

(** Saturation checked from the start: a threshold of zero responses. *)
Definition saturation_from_start : SaturationOptions :=
  mkSaturationOptions (Some 0) None None.

(** The loop conversation of the package's test file. *)
Definition loopConversation : list Message :=
  [ mkMessage user "Rewrite the intro paragraph" 0%float;
    mkMessage assistant "Here's a rewrite." 30000%float;
    mkMessage user "Rewrite the intro paragraph differently" 60000%float;
    mkMessage assistant "Another version." 90000%float;
    mkMessage user "Rewrite the intro paragraph again please" 120000%float ].

(** The same three requests with the assistant's replies left out. *)
Definition loopRequests : list Message :=
  [ mkMessage user "Rewrite the intro paragraph" 0%float;
    mkMessage user "Rewrite the intro paragraph differently" 60000%float;
    mkMessage user "Rewrite the intro paragraph again please" 120000%float ].

(** Three identical requests that mention a constructor. *)
Definition constructor_requests : list Message :=
  [ user_says "Rewrite the constructor";
    user_says "Rewrite the constructor";
    user_says "Rewrite the constructor" ].

(** Windows whose content lengths sum to 26 and to 39. *)
Definition rounding_requests : list Message :=
  map (fun n => user_says (letters "a" n)) [6; 5; 5; 5; 5; 8; 8; 8; 8; 7]%nat.

(** A short, resolved exchange. *)
Definition weather : list Message :=
  [ mkMessage user "What's the weather?" 0%float;
    mkMessage assistant "It's sunny." 10000%float;
    mkMessage user "Thanks" 20000%float ].

(** The requests of [asking_for_more] typed first, the answers after them,
    with the timestamps they had. *)
Definition asking_for_more_reordered : list Message :=
  [ mkMessage user "And what about work-life balance? Give me more on that" 270000%float;
    mkMessage user "Can you also compare the company cultures?" 240000%float;
    mkMessage assistant (letters "A" 300) 30000%float;
    mkMessage user "What about career growth?" 180000%float;
    mkMessage assistant (letters "B" 300) 90000%float;
    mkMessage assistant (letters "C" 300) 150000%float;
    mkMessage user "Can you also look at commute times?" 120000%float;
    mkMessage assistant (letters "D" 300) 210000%float;
    mkMessage user "What about the benefits?" 60000%float;
    mkMessage user "Compare these two job offers for me" 0%float ].

(** Request patterns written with capitals. *)
Definition capitalised_patterns : SaturationOptions :=
  mkSaturationOptions None None (Some ["Can you also"; "What about"; "Give me"]).

(** [collapsing_replies] with every letter replaced, lengths and
    timestamps kept, and the assistant left out. *)
Definition collapsing_lengths : list Message :=
  [ mkMessage user (letters "x" 131) 0%float;
    mkMessage user (letters "x" 132) 30000%float;
    mkMessage user (letters "x" 127) 60000%float;
    mkMessage user (letters "x" 107) 90000%float;
    mkMessage user "aaaa" 120000%float;
    mkMessage user "bb" 150000%float;
    mkMessage user "cccc" 180000%float;
    mkMessage user "dddd" 210000%float ].

(** [growing_requests] reworded, lengths and question marks kept. *)
Definition growing_lengths : list Message :=
  repeat (mkMessage user "no" 7%float) 5
  ++ repeat (mkMessage user "?......................." 9%float) 5.

(* ================================================================== *)
(** * More of JavaScript: [trim] and [join]                             *)
(* ================================================================== *)

(** [s.trimStart()]: white space and line terminators, which on code
    units below 256 are the characters of [\s]. *)
Fixpoint trimStart (s : string) : string :=
  match s with
  | EmptyString => EmptyString
  | String c s' => if is_space c then trimStart s' else s
  end.

(** [s.trimEnd()]. *)
Fixpoint trimEnd (s : string) : string :=
  match s with
  | EmptyString => EmptyString
  | String c s' =>
      match trimEnd s' with
      | EmptyString => if is_space c then EmptyString else String c EmptyString
      | String c' r => String c (String c' r)
      end
  end.

(** [s.trim()]. *)
Definition trim (s : string) : string := trimEnd (trimStart s).

(** [parts.join(" ")]. *)
Definition join_spaces (parts : list string) : string := String.concat " " parts.

(** Every character of [s] satisfies [p]. *)
Fixpoint string_forall (p : ascii -> bool) (s : string) : bool :=
  match s with
  | EmptyString => true
  | String c s' => p c && string_forall p s'
  end.

(** The characters a token can hold: a-z, 0-9 and the underscore. *)
Definition is_token_char (c : ascii) : bool :=
  in_range 48 57 c || in_range 97 122 c || (code c =? 95)%N.

(** A punctuation character for the tokeniser: neither [\w] nor [\s]. *)
Definition is_punctuation (c : ascii) : bool := negb (is_word c || is_space c).

(** A-Z. *)
Definition is_upper (c : ascii) : bool := in_range 65 90 c.

(** A key that a plain object inherits from [Object.prototype] and that
    assignment turns into an own property: every prototype key except
    [__proto__]. *)
Definition inherited_key (k : string) : bool :=
  mem k prototype_keys && negb (String.eqb k "__proto__").

(** What [toLowerCase], [\w] and [\s] do to each of the 256 code units. *)
Definition char_facts (c : ascii) : bool :=
  Ascii.eqb (lower_char (lower_char c)) (lower_char c)
  && Bool.eqb (is_space (lower_char c)) (is_space c)
  && Bool.eqb (is_word (lower_char c)) (is_word c)
  && implb (is_space c) (Ascii.eqb (lower_char c) c)
  && implb (is_word c) (is_token_char (lower_char c))
  && negb (is_word c && is_space c)
  && implb (is_token_char c) (Ascii.eqb (lower_char c) c && is_word c && negb (is_space c))
  && negb (is_upper (lower_char c)).

(** A well-formed token: not empty, and made of a-z, 0-9 and the
    underscore. *)
Definition token (t : string) : Prop :=
  t <> EmptyString /\ string_forall is_token_char t = true.

(** A value that is not a Number: a built-in object or its text. *)
Definition not_number (v : value) : bool :=
  match v with
  | VNum _ => false
  | VObj _ => true
  | VStr _ _ => true
  end.

(** In a frequency map, a key that [Object.prototype] also has never
    holds a Number. *)
Definition prototype_keys_hold_text (o : object) : Prop :=
  forall k v, own o k = Some v -> mem k prototype_keys = true -> not_number v = true.

(** A token sequence without the tokens equal to [__proto__]. *)
Definition without_proto (tokens : list string) : list string :=
  filter (fun t => negb (String.eqb t "__proto__")) tokens.

(** One turn of [freq]. *)
Definition count_token (map : object) (t : string) : object :=
  set map t (plus_one (or_zero (get map t))).

(** A string that is empty or starts with something other than white
    space. *)
Definition starts_without_space (s : string) : bool :=
  match s with
  | EmptyString => true
  | String c _ => negb (is_space c)
  end.

(* ================================================================== *)
(** * nil-space: the breath, the coin and the whisper                   *)
(* ================================================================== *)

Definition SILENCE_WEIGHT : float := 0.7%float.

(** [coin()], given the value that [Math.random()] returns. *)
Definition coin (random : float) : bool := gt random SILENCE_WEIGHT.

Definition checks : list string :=
  [ "are you there"; "hello"; "hi"; "hey"; "anyone there" ].

Definition isDirectQuestion (message : string) : bool :=
  let lower := toLowerCase (trim message) in
  existsb (fun c => String.eqb lower c || String.eqb lower (c ++ "?")%string) checks.

(** What the command line prints when nothing comes back: two spaces and
    a middle dot (U+00B7). *)
Definition silence_line : string := "  " ++ String (ascii_of_N 183) EmptyString.

Inductive turn_result : Type :=
| PromptAgain                 (* an empty line: ask again, nothing printed *)
| Closed                      (* "done": the interface is closed *)
| Printed (line : string).    (* the line written before the next prompt *)

Section NilSpace.

(** The request to the language model, as a function of the message: the
    text of the first content block of the response. *)
Variable whisper : string -> string.

(** [nil(message)] once the breath is over, given the value of
    [Math.random()] should the coin be tossed: a response, or [null]. *)
Definition nil (message : string) (random : float) : option string :=
  if isDirectQuestion message then Some (whisper message)
  else if coin random then Some (whisper message)
  else None.

(** One line of input to the command line. *)
Definition turn (input : string) (random : float) : turn_result :=
  let trimmed := trim input in
  if negb (truthy_string trimmed) then PromptAgain
  else if String.eqb (toLowerCase trimmed) "done" then Closed
  else
    match nil trimmed random with
    | Some response =>
        if truthy_string response then Printed ("  " ++ response)%string
        else Printed silence_line
    | None => Printed silence_line
    end.

End NilSpace.

(* ================================================================== *)
(** * Arrays: [slice], indexing and the push loop                       *)
(* ================================================================== *)

Section ArrayFacts.

Context {A : Type}.
Implicit Types (arr l : list A).

Lemma rel_index_negative (len i : Z) : i < 0 -> rel_index len i = Z.max (len + i) 0.
Proof. intros H. unfold rel_index. destruct (Z.ltb_spec i 0); [ reflexivity | lia ]. Qed.

Lemma rel_index_nonnegative (len i : Z) : 0 <= i -> rel_index len i = Z.min i len.
Proof. intros H. unfold rel_index. destruct (Z.ltb_spec i 0); [ lia | reflexivity ]. Qed.

Lemma slice_from_start l : slice l 0 None = l.
Proof.
  unfold slice. rewrite rel_index_nonnegative by lia.
  rewrite Z.min_l by lia. simpl skipn.
  apply firstn_all2. lia.
Qed.

Lemma slice_last l (k : Z) :
  0 < k -> slice l (- k) None = Spec.last_n (Z.to_nat k) l.
Proof.
  intros Hk. unfold slice, Spec.last_n.
  rewrite rel_index_negative by lia.
  replace (Z.to_nat (Z.max (Z.of_nat (List.length l) + - k) 0))
    with (List.length l - Z.to_nat k)%nat by lia.
  apply firstn_all2. rewrite length_skipn. lia.
Qed.

Lemma slice_all_but_last l (k : Z) :
  0 < k -> slice l 0 (Some (- k)) = Spec.all_but_last_n (Z.to_nat k) l.
Proof.
  intros Hk. unfold slice, Spec.all_but_last_n.
  rewrite rel_index_negative, rel_index_nonnegative by lia.
  rewrite Z.min_l by lia. simpl skipn.
  f_equal. lia.
Qed.

Lemma slice_empty_prefix l : slice l 0 (Some 0) = [].
Proof.
  unfold slice. rewrite rel_index_nonnegative by lia.
  rewrite Z.min_l by lia. reflexivity.
Qed.

Lemma slice_preceding_window l (k : Z) :
  0 < k -> k * 2 <= Z.of_nat (List.length l) ->
  slice l (- k * 2) (Some (- k))
  = Spec.last_n (Z.to_nat k) (Spec.all_but_last_n (Z.to_nat k) l).
Proof.
  intros Hk Hlen. unfold slice, Spec.last_n, Spec.all_but_last_n.
  rewrite !rel_index_negative by lia.
  rewrite length_firstn.
  rewrite firstn_skipn_comm.
  f_equal; [ lia | f_equal; lia ].
Qed.

Lemma last_n_length (n : nat) l :
  List.length (Spec.last_n n l) = Nat.min n (List.length l).
Proof. unfold Spec.last_n. rewrite length_skipn. lia. Qed.

Lemma last_n_last_n (n m : nat) l :
  (n <= m)%nat -> Spec.last_n n (Spec.last_n m l) = Spec.last_n n l.
Proof.
  intros Hnm. unfold Spec.last_n.
  rewrite skipn_skipn, length_skipn. f_equal. lia.
Qed.

Lemma last_n_zero l : Spec.last_n 0 l = [].
Proof. unfold Spec.last_n. apply skipn_all2. lia. Qed.

Lemma all_but_last_n_zero l : Spec.all_but_last_n 0 l = l.
Proof. unfold Spec.all_but_last_n. apply firstn_all2. lia. Qed.

Lemma index_of_nat l (i : nat) : index l (Z.of_nat i) = nth_error l i.
Proof.
  unfold index. destruct (Z.ltb_spec (Z.of_nat i) 0); [ lia | ].
  now rewrite Nat2Z.id.
Qed.

Lemma index_pred l (i : nat) : index l (Z.of_nat (S i) - 1) = nth_error l i.
Proof.
  replace (Z.of_nat (S i) - 1) with (Z.of_nat i) by lia. apply index_of_nat.
Qed.

Lemma index_nonnegative l (i : Z) : 0 <= i -> index l i = nth_error l (Z.to_nat i).
Proof.
  intros Hi. unfold index. destruct (Z.ltb_spec i 0); [ lia | reflexivity ].
Qed.

Lemma index_negative l (i : Z) : i < 0 -> index l i = None.
Proof.
  intros Hi. unfold index. destruct (Z.ltb_spec i 0); [ reflexivity | lia ].
Qed.

Lemma consecutive_pairs_short l :
  (List.length l <= 1)%nat -> Spec.consecutive_pairs l = [].
Proof.
  destruct l as [ | x [ | y l ] ]; simpl; intros H; try reflexivity; lia.
Qed.

(** A loop that reads [arr[i - 1]] and [arr[i]] for [i = 1 .. length - 1]
    pushes one value per consecutive pair and does not throw. *)
Lemma for_push_pairs_from {B : Type} (body : nat -> result B) (g : A * A -> B) :
  forall rest pre x acc,
    (forall i a b, nth_error (pre ++ x :: rest) i = Some a ->
                   nth_error (pre ++ x :: rest) (S i) = Some b ->
                   body (S i) = Ok (g (a, b))) ->
    for_push body (S (List.length pre)) (List.length rest) acc
    = Ok (acc ++ map g (Spec.consecutive_pairs (x :: rest))).
Proof.
  induction rest as [ | y rest IH ]; intros pre x acc Hbody.
  - simpl. now rewrite app_nil_r.
  - cbn [List.length for_push].
    rewrite (Hbody (List.length pre) x y).
    + cbn [bind].
      specialize (IH (pre ++ [x]) y (acc ++ [g (x, y)])).
      rewrite length_app, Nat.add_comm in IH. cbn [List.length plus] in IH.
      rewrite IH.
      * cbn [Spec.consecutive_pairs map]. now rewrite <- app_assoc.
      * intros i a b. rewrite <- app_assoc. cbn [app]. apply Hbody.
    + rewrite nth_error_app2, Nat.sub_diag by lia. reflexivity.
    + rewrite nth_error_app2 by lia.
      replace (S (List.length pre) - List.length pre)%nat with 1%nat by lia.
      reflexivity.
Qed.

Lemma for_push_pairs {B : Type} (body : nat -> result B) (g : A * A -> B) l :
  (forall i a b, nth_error l i = Some a -> nth_error l (S i) = Some b ->
                 body (S i) = Ok (g (a, b))) ->
  for_push body 1 (List.length l - 1) [] = Ok (map g (Spec.consecutive_pairs l)).
Proof.
  intros Hbody. destruct l as [ | x rest ].
  - reflexivity.
  - cbn [List.length]. rewrite Nat.sub_succ, Nat.sub_0_r.
    apply (for_push_pairs_from body g rest [] x []). exact Hbody.
Qed.

Lemma count_filter (p : A -> bool) l : List.length (filter p l) = Spec.count p l.
Proof.
  induction l as [ | x l IH ]; simpl; [ reflexivity | ].
  destruct (p x); simpl; now rewrite IH.
Qed.

End ArrayFacts.

(* ================================================================== *)
(** * Numbers: what [NaN] does                                          *)
(* ================================================================== *)

Lemma Prim2SF_nan : Prim2SF PrimFloat.nan = S754_nan.
Proof. reflexivity. Qed.

Lemma div_nan_l (x : float) : PrimFloat.div PrimFloat.nan x = PrimFloat.nan.
Proof.
  apply Prim2SF_inj. rewrite div_spec, Prim2SF_nan. reflexivity.
Qed.

Lemma leb_nan_l (x : float) : PrimFloat.leb PrimFloat.nan x = false.
Proof. rewrite leb_spec, Prim2SF_nan. reflexivity. Qed.

Lemma sum_content_length_map (group : list Message) :
  sum_content_length group = sum_numbers (map content_length group).
Proof.
  unfold sum_content_length, sum_numbers.
  generalize 0%float. induction group as [ | m group IH ]; intros acc; simpl.
  - reflexivity.
  - apply IH.
Qed.

Lemma average_length (group : list Message) :
  PrimFloat.div (sum_content_length group) (num_of_nat (List.length group))
  = Spec.mean_length group.
Proof.
  unfold Spec.mean_length, Spec.mean.
  now rewrite sum_content_length_map, length_map.
Qed.

Lemma getGaps_gaps (group : list Message) : getGaps group = Ok (Spec.gaps group).
Proof.
  unfold getGaps, Spec.gaps.
  apply for_push_pairs. intros i a b Ha Hb.
  rewrite index_of_nat, index_pred, Ha, Hb. reflexivity.
Qed.

(** A Number that is neither [NaN] nor infinite, as the specification of
    binary64 sees it. *)
Lemma is_finite_SF (x : float) :
  PrimFloat.is_finite x = true ->
  (exists s, Prim2SF x = S754_zero s) \/ (exists s m e, Prim2SF x = S754_finite s m e).
Proof.
  unfold PrimFloat.is_finite, PrimFloat.is_nan, PrimFloat.is_infinity.
  rewrite negb_true_iff, orb_false_iff, negb_false_iff.
  rewrite !eqb_spec, abs_spec. intros [Hnan Hinf].
  destruct (Prim2SF x) as [ s | s | | s m e ].
  - left. now exists s.
  - destruct s; discriminate.
  - discriminate.
  - right. now exists s, m, e.
Qed.

(** Zero times a finite Number is (plus or minus) zero. *)
Lemma mul_zero_finite (x : float) :
  PrimFloat.is_finite x = true ->
  strict_eq (PrimFloat.mul 0%float x) 0%float = true
  /\ strict_eq (PrimFloat.mul x 0%float) 0%float = true.
Proof.
  intros H. unfold strict_eq. rewrite !eqb_spec, !mul_spec.
  destruct (is_finite_SF x H) as [ [s ->] | (s & m & e & ->) ];
    destruct s; split; reflexivity.
Qed.

(* ================================================================== *)
(** * Loop detection                                                    *)
(* ================================================================== *)

Lemma forallb_map_pairs {A B : Type} (p : B -> bool) (g : A -> B) (l : list A) :
  forallb p (map g l) = forallb (fun x => p (g x)) l.
Proof. induction l as [ | x l IH ]; simpl; [ reflexivity | now rewrite IH ]. Qed.

(** The loop of [detectLoop] never reads outside [recent]: the detector
    returns, and what it returns is the test of every consecutive pair. *)
Lemma detectLoop_unfold (messages : list Message) (options : option LoopOptions) :
  detectLoop messages options
  = let t := field options threshold 3 in
    let floor := field options similarityFloor 0.6%float in
    let userMessages := slice (Spec.user_messages messages) (- t - 1) None in
    if Z.of_nat (List.length userMessages) <? t then Ok false
    else Ok (forallb (fun xy => ge (pushed_similarity (fst xy) (snd xy)) floor)
                     (Spec.consecutive_pairs (slice userMessages (- t) None))).
Proof.
  unfold detectLoop, Spec.user_messages. cbv zeta.
  destruct (_ <? _); [ reflexivity | ].
  rewrite (for_push_pairs _ (fun xy => pushed_similarity (fst xy) (snd xy))).
  - cbn [bind]. now rewrite forallb_map_pairs.
  - intros i a b Ha Hb. rewrite index_of_nat, index_pred, Ha, Hb. reflexivity.
Qed.

Lemma forallb_pushed (floor : float) (pairs : list (Message * Message)) :
  forallb (fun xy => ge (pushed_similarity (fst xy) (snd xy)) floor) pairs = true
  <-> Forall (fun xy => ge (pushed_similarity (fst xy) (snd xy)) floor = true) pairs.
Proof.
  rewrite forallb_forall, Forall_forall. reflexivity.
Qed.

Lemma detectLoop_total (messages : list Message) (options : option LoopOptions) :
  exists b, detectLoop messages options = Ok b.
Proof.
  rewrite detectLoop_unfold. cbv zeta.
  destruct (_ <? _); eexists; reflexivity.
Qed.

(** With a threshold of zero the window is the last user message alone. *)
Lemma detectLoop_threshold_zero (messages : list Message) (options : option LoopOptions) :
  field options threshold 3 = 0 -> detectLoop messages options = Ok true.
Proof.
  intros Ht. rewrite detectLoop_unfold. cbv zeta. rewrite Ht.
  change (- 0 - 1) with (- (1)). change (- 0) with 0.
  rewrite slice_last by lia. rewrite slice_from_start.
  destruct (Z.ltb_spec (Z.of_nat (List.length (Spec.last_n (Z.to_nat 1) (Spec.user_messages messages)))) 0);
    [ lia | ].
  rewrite consecutive_pairs_short; [ reflexivity | ].
  rewrite last_n_length. lia.
Qed.

(** With a positive threshold the window is the last [threshold] user
    messages. *)
Lemma detectLoop_threshold_positive (messages : list Message) (options : option LoopOptions) :
  let t := field options threshold 3 in
  let floor := field options similarityFloor 0.6%float in
  let users := Spec.user_messages messages in
  0 < t ->
  detectLoop messages options
  = if Z.of_nat (List.length users) <? t then Ok false
    else Ok (forallb (fun xy => ge (pushed_similarity (fst xy) (snd xy)) floor)
                     (Spec.consecutive_pairs (Spec.last_n (Z.to_nat t) users))).
Proof.
  intros t floor users Ht. rewrite detectLoop_unfold. cbv zeta.
  fold t floor users.
  replace (- t - 1) with (- (t + 1)) by lia.
  rewrite !slice_last by lia.
  rewrite last_n_last_n by lia.
  rewrite last_n_length.
  destruct (Z.ltb_spec (Z.of_nat (List.length users)) t);
    destruct (Z.ltb_spec (Z.of_nat (Nat.min (Z.to_nat (t + 1)) (List.length users))) t);
    try reflexivity; lia.
Qed.

(** A negative threshold is not a count: [slice(-threshold)] then drops
    messages from the front, and the window is whatever is left. *)
Lemma detectLoop_negative_threshold :
  detectLoop [user_says "alpha"; user_says "beta"; user_says "gamma"]
             (Some (mkLoopOptions (Some (-1)) None)) = Ok false.
Proof. vm_compute. reflexivity. Qed.

(** X23. The window and the loop of [detectLoop].  With a threshold that
    is a count (zero or more), [detectLoop] returns false when the
    conversation has fewer than [threshold] user-authored messages;
    otherwise it returns, and it returns true exactly when, for every
    consecutive pair among the last [threshold] user-authored messages, the
    Number that the library's own [cosineSimilarity] gives for their
    [tokenise]d contents meets or exceeds [similarityFloor] ([NaN] meets no
    floor). *)
Theorem detectLoop_window (conversation : list Message) (options : option LoopOptions) :
  let t := field options threshold 3 in
  let floor := field options similarityFloor 0.6%float in
  let users := Spec.user_messages conversation in
  0 <= t ->
  (Z.of_nat (List.length users) < t -> detectLoop conversation options = Ok false)
  /\ (t <= Z.of_nat (List.length users) ->
      exists b, detectLoop conversation options = Ok b
                /\ (b = true <->
                    Forall (fun xy => ge (pushed_similarity (fst xy) (snd xy)) floor = true)
                           (Spec.consecutive_pairs (Spec.last_n (Z.to_nat t) users)))).
Proof.
  intros t floor users Ht.
  destruct (Z.eq_dec t 0) as [Hz | Hnz].
  - split; [ lia | ]. intros _. exists true. split.
    + now apply detectLoop_threshold_zero.
    + rewrite Hz. change (Z.to_nat 0) with 0%nat. rewrite last_n_zero.
      split; [ constructor | reflexivity ].
  - pose proof (detectLoop_threshold_positive conversation options) as E.
    cbv zeta in E. fold t floor users in E. rewrite E by lia.
    split; intros Hlen.
    + destruct (Z.ltb_spec (Z.of_nat (List.length users)) t); [ reflexivity | lia ].
    + destruct (Z.ltb_spec (Z.of_nat (List.length users)) t); [ lia | ].
      eexists. split; [ reflexivity | ]. apply forallb_pushed.
Qed.

Lemma detectLoop_window_witness :
  exists b, detectLoop three_requests None = Ok b
            /\ (b = true <->
                Forall (fun xy => ge (pushed_similarity (fst xy) (snd xy)) 0.6%float = true)
                       (Spec.consecutive_pairs
                          (Spec.last_n 3 (Spec.user_messages three_requests)))).
Proof.
  apply (detectLoop_window three_requests None); vm_compute; discriminate.
Defined.

(** ** A loop that is not detected *)

(** Away from the property names of [Object.prototype] the scorer computes
    the cosine similarity of the design document: on the loop conversation
    of the test file the two Numbers are the same. *)
Lemma loop_conversation_scores :
  Forall (fun xy => pushed_similarity (fst xy) (snd xy)
                    = Spec.similarity (fst xy) (snd xy))
         (Spec.consecutive_pairs (Spec.user_messages loopConversation)).
Proof. repeat constructor. Qed.

(** C1. [detectLoop] does not return true for every conversation whose
    last [threshold] user-authored messages are pairwise similar.  Take any
    conversation whose user-authored messages are three times the request
    "Rewrite the constructor", with any assistant messages in between and
    any timestamps, and the default options.  There are [threshold] = 3 user
    messages, and both consecutive pairs have identical frequency vectors:
    their cosine similarity is 1 and meets the floor 0.6.  Yet for
    each pair the library's scorer returns [NaN], because its frequency map
    inherits the key "constructor" from [Object.prototype], and
    [detectLoop] returns false.  The same three requests about a
    "paragraph" are detected. *)
Theorem detectLoop_misses_repeated_request (conversation : list Message) :
  let users := Spec.user_messages conversation in
  let pairs := Spec.consecutive_pairs (Spec.last_n 3 users) in
  map content users
  = [ "Rewrite the constructor"; "Rewrite the constructor"; "Rewrite the constructor" ] ->
  3 <= Z.of_nat (List.length users)
  /\ Forall (Spec.similar 0.6%float) pairs
  /\ Forall (fun xy => forall term,
                Spec.term_frequency (tokenise (content (fst xy))) term
                = Spec.term_frequency (tokenise (content (snd xy))) term) pairs
  /\ Forall (fun xy => PrimFloat.is_nan (pushed_similarity (fst xy) (snd xy)) = true) pairs
  /\ detectLoop conversation None = Ok false
  /\ detectLoop [ user_says "Rewrite the paragraph"; user_says "Rewrite the paragraph";
                  user_says "Rewrite the paragraph" ] None = Ok true.
Proof.
  intros users pairs H.
  pose proof (detectLoop_threshold_positive conversation None) as E.
  cbv zeta in E. cbn [field] in E. rewrite E by lia. clear E.
  subst pairs. fold users.
  destruct users as [ | m1 [ | m2 [ | m3 [ | m4 l ] ] ] ]; try discriminate H.
  destruct m1, m2, m3. cbn [map content] in H.
  injection H as -> -> ->.
  split; [ cbn; lia | ].
  split; [ repeat constructor | ].
  split; [ repeat constructor | ].
  split; [ repeat constructor | ].
  split; vm_compute; reflexivity.
Qed.

Lemma detectLoop_misses_repeated_request_witness :
  detectLoop constructor_requests None = Ok false
  /\ Forall (Spec.similar 0.6%float)
            (Spec.consecutive_pairs (Spec.last_n 3 (Spec.user_messages constructor_requests))).
Proof.
  destruct (detectLoop_misses_repeated_request constructor_requests)
    as (_ & Hsimilar & _ & _ & Hfalse & _).
  - reflexivity.
  - split; [ exact Hfalse | exact Hsimilar ].
Defined.

(* ================================================================== *)
(** * Velocity collapse                                                 *)
(* ================================================================== *)

Lemma detectVelocityCollapse_unfold (messages : list Message)
    (options : option VelocityCollapseOptions) :
  detectVelocityCollapse messages options
  = let lr := field options lengthDropRatio 0.3%float in
    let fr := field options frequencyDropRatio 3%float in
    let w := field options vc_windowSize 4 in
    let users := Spec.user_messages messages in
    if Z.of_nat (List.length users) <? w * 2 then Ok false
    else
      let earlier := slice users 0 (Some (- w)) in
      let recent := slice users (- w) None in
      if gt (Spec.mean_length earlier) 0%float
         && le (PrimFloat.div (Spec.mean_length recent) (Spec.mean_length earlier)) lr
      then Ok true
      else if (List.length (Spec.gaps earlier) =? 0)%nat
              || (List.length (Spec.gaps recent) =? 0)%nat
      then Ok false
      else if gt (Spec.mean (Spec.gaps earlier)) 0%float
              && ge (PrimFloat.div (Spec.mean (Spec.gaps recent))
                                   (Spec.mean (Spec.gaps earlier))) fr
      then Ok true
      else Ok false.
Proof.
  unfold detectVelocityCollapse, Spec.user_messages. cbv zeta.
  destruct (_ <? _); [ reflexivity | ].
  rewrite !average_length, !getGaps_gaps. reflexivity.
Qed.

Lemma detectVelocityCollapse_total (messages : list Message)
    (options : option VelocityCollapseOptions) :
  exists b, detectVelocityCollapse messages options = Ok b.
Proof.
  rewrite detectVelocityCollapse_unfold. cbv zeta.
  repeat (destruct (_ : bool); try (eexists; reflexivity)).
Qed.

Lemma length_is_zero {A : Type} (l : list A) :
  (List.length l =? 0)%nat = true <-> l = [].
Proof.
  destruct l; simpl; split; intros H; try reflexivity; discriminate.
Qed.

Lemma length_collapse_iff (earlier recent : list Message) (lr : float) :
  Spec.length_collapse earlier recent lr
  <-> gt (Spec.mean_length earlier) 0%float
      && le (PrimFloat.div (Spec.mean_length recent) (Spec.mean_length earlier)) lr = true.
Proof. unfold Spec.length_collapse. now rewrite andb_true_iff. Qed.

Lemma frequency_collapse_iff (earlier recent : list Message) (fr : float) :
  Spec.frequency_collapse earlier recent fr
  <-> negb ((List.length (Spec.gaps earlier) =? 0)%nat
            || (List.length (Spec.gaps recent) =? 0)%nat)
      && (gt (Spec.mean (Spec.gaps earlier)) 0%float
          && ge (PrimFloat.div (Spec.mean (Spec.gaps recent))
                               (Spec.mean (Spec.gaps earlier))) fr) = true.
Proof.
  unfold Spec.frequency_collapse.
  rewrite !andb_true_iff, negb_true_iff, orb_false_iff.
  rewrite <- !not_true_iff_false, !length_is_zero. tauto.
Qed.

(** The decision of [detectVelocityCollapse] on the two groups. *)
Lemma velocity_decision (earlier recent : list Message) (lr fr : float) (b : bool) :
  (if gt (Spec.mean_length earlier) 0%float
      && le (PrimFloat.div (Spec.mean_length recent) (Spec.mean_length earlier)) lr
   then Ok true
   else if (List.length (Spec.gaps earlier) =? 0)%nat
           || (List.length (Spec.gaps recent) =? 0)%nat
   then Ok false
   else if gt (Spec.mean (Spec.gaps earlier)) 0%float
           && ge (PrimFloat.div (Spec.mean (Spec.gaps recent))
                                (Spec.mean (Spec.gaps earlier))) fr
   then Ok true
   else Ok false) = Ok b ->
  (b = true <->
   Spec.length_collapse earlier recent lr
   \/ (~ Spec.length_collapse earlier recent lr
       /\ Spec.frequency_collapse earlier recent fr)).
Proof.
  rewrite length_collapse_iff, frequency_collapse_iff.
  destruct (gt _ _ && le _ _); [ | destruct (_ || _); [ | destruct (gt _ _ && ge _ _) ] ];
    intros E; injection E as <-; cbn [negb andb];
    intuition (try discriminate; try congruence).
Qed.

(** With a window of zero messages one group is empty whichever way the
    conversation is cut, and neither check can trigger. *)
Lemma no_collapse_without_recent (earlier : list Message) (lr fr : float) :
  ~ Spec.length_collapse earlier [] lr /\ ~ Spec.frequency_collapse earlier [] fr.
Proof.
  split.
  - intros [_ H]. unfold le in H.
    change (Spec.mean_length []) with PrimFloat.nan in H.
    rewrite div_nan_l, leb_nan_l in H. discriminate.
  - intros (_ & H & _). now apply H.
Qed.

(** C5. With a window size that is a count (zero or more),
    [detectVelocityCollapse] returns false when there are fewer than
    [windowSize * 2] user messages.  Otherwise it returns, and with
    'recent' the last [windowSize] user messages and 'earlier' all the user
    messages before them it returns true exactly when the length check
    triggers (earlier mean length above zero and recent mean over earlier
    mean at most [lengthDropRatio]) or, the length check not having
    triggered, the frequency check does (both groups have a gap between
    consecutive timestamps of their own, the earlier mean gap is above zero,
    and recent mean gap over earlier mean gap is at least
    [frequencyDropRatio]). *)
Theorem detectVelocityCollapse_spec (conversation : list Message)
    (options : option VelocityCollapseOptions) :
  let lr := field options lengthDropRatio 0.3%float in
  let fr := field options frequencyDropRatio 3%float in
  let w := field options vc_windowSize 4 in
  let users := Spec.user_messages conversation in
  let recent := Spec.last_n (Z.to_nat w) users in
  let earlier := Spec.all_but_last_n (Z.to_nat w) users in
  0 <= w ->
  (Z.of_nat (List.length users) < w * 2 ->
   detectVelocityCollapse conversation options = Ok false)
  /\ (w * 2 <= Z.of_nat (List.length users) ->
      exists b, detectVelocityCollapse conversation options = Ok b
                /\ (b = true <->
                    Spec.length_collapse earlier recent lr
                    \/ (~ Spec.length_collapse earlier recent lr
                        /\ Spec.frequency_collapse earlier recent fr))).
Proof.
  intros lr fr w users recent earlier Hw.
  rewrite detectVelocityCollapse_unfold. cbv zeta. fold lr fr w users.
  split; intros Hlen.
  - destruct (Z.ltb_spec (Z.of_nat (List.length users)) (w * 2)); [ reflexivity | lia ].
  - destruct (Z.ltb_spec (Z.of_nat (List.length users)) (w * 2)); [ lia | ].
    destruct (Z.eq_dec w 0) as [Hz | Hnz].
    + exists false. subst recent earlier. rewrite Hz.
      change (- 0) with 0. rewrite slice_empty_prefix, slice_from_start.
      change (Z.to_nat 0) with 0%nat. rewrite last_n_zero, all_but_last_n_zero.
      split; [ reflexivity | ].
      destruct (no_collapse_without_recent users lr fr) as [H1 H2].
      split; [ discriminate | tauto ].
    + rewrite slice_all_but_last, slice_last by lia. fold recent earlier.
      destruct (detectVelocityCollapse_total conversation options) as [b Hb].
      rewrite detectVelocityCollapse_unfold in Hb. cbv zeta in Hb.
      fold lr fr w users in Hb.
      destruct (Z.ltb_spec (Z.of_nat (List.length users)) (w * 2)); [ lia | ].
      rewrite slice_all_but_last, slice_last in Hb by lia. fold recent earlier in Hb.
      exists b. split; [ exact Hb | ]. now apply velocity_decision.
Qed.

Lemma detectVelocityCollapse_spec_witness :
  exists b, detectVelocityCollapse collapsing_replies None = Ok b
            /\ (b = true <->
                Spec.length_collapse
                  (Spec.all_but_last_n 4 (Spec.user_messages collapsing_replies))
                  (Spec.last_n 4 (Spec.user_messages collapsing_replies)) 0.3%float
                \/ (~ Spec.length_collapse
                        (Spec.all_but_last_n 4 (Spec.user_messages collapsing_replies))
                        (Spec.last_n 4 (Spec.user_messages collapsing_replies)) 0.3%float
                    /\ Spec.frequency_collapse
                         (Spec.all_but_last_n 4 (Spec.user_messages collapsing_replies))
                         (Spec.last_n 4 (Spec.user_messages collapsing_replies)) 3%float)).
Proof.
  apply (detectVelocityCollapse_spec collapsing_replies None); vm_compute; discriminate.
Defined.

(* ================================================================== *)
(** * Scope creep                                                       *)
(* ================================================================== *)

Lemma detectScopeCreep_unfold (messages : list Message)
    (options : option ScopeCreepOptions) :
  detectScopeCreep messages options
  = let w := field options sc_windowSize 5 in
    let g := field options growthRatio 1.5%float in
    let users := Spec.user_messages messages in
    if Z.of_nat (List.length users) <? w * 2 then Ok false
    else
      let earlier := slice users (- w * 2) (Some (- w)) in
      let recent := slice users (- w) None in
      Ok (ge (PrimFloat.div (Spec.mean_length recent) (Spec.mean_length earlier)) g
          && (Spec.questions earlier <=? Spec.questions recent)%nat).
Proof.
  unfold detectScopeCreep, Spec.user_messages, Spec.questions. cbv zeta.
  destruct (_ <? _); [ reflexivity | ].
  rewrite !average_length, !count_filter.
  destruct (ge _ _); [ | reflexivity ].
  destruct (_ <=? _)%nat; reflexivity.
Qed.

Lemma detectScopeCreep_total (messages : list Message)
    (options : option ScopeCreepOptions) :
  exists b, detectScopeCreep messages options = Ok b.
Proof.
  rewrite detectScopeCreep_unfold. cbv zeta.
  destruct (_ <? _); eexists; reflexivity.
Qed.

(** C2, as amended.  [detectScopeCreep] returns false when there are fewer
    than [windowSize * 2] user messages.  With at least that many, and an
    earlier window whose mean character length is above zero, it returns,
    and it returns true exactly when (a) the mean length of the last
    [windowSize] user messages divided by the mean length of the
    [windowSize] user messages before them is at least [growthRatio], and
    (b) the recent window has at least as many messages containing a
    question mark as the earlier one. *)
Theorem detectScopeCreep_spec (conversation : list Message)
    (options : option ScopeCreepOptions) :
  let w := field options sc_windowSize 5 in
  let g := field options growthRatio 1.5%float in
  let users := Spec.user_messages conversation in
  (Z.of_nat (List.length users) < w * 2 ->
   detectScopeCreep conversation options = Ok false)
  /\ (w * 2 <= Z.of_nat (List.length users) ->
      gt (Spec.mean_length (Spec.earlier_window w conversation)) 0%float = true ->
      exists b, detectScopeCreep conversation options = Ok b
                /\ (b = true <-> Spec.scope_creep_by_quotient w g conversation)).
Proof.
  intros w g users.
  rewrite detectScopeCreep_unfold. cbv zeta. fold w g users.
  split.
  - intros Hlen.
    destruct (Z.ltb_spec (Z.of_nat (List.length users)) (w * 2)); [ reflexivity | lia ].
  - intros Hlen Hpos.
    destruct (Z.ltb_spec (Z.of_nat (List.length users)) (w * 2)); [ lia | ].
    destruct (Z_lt_le_dec 0 w) as [Hw | Hw].
    + rewrite slice_preceding_window, slice_last by (fold users; lia).
      eexists. split; [ reflexivity | ].
      unfold Spec.scope_creep_by_quotient, Spec.recent_window, Spec.earlier_window.
      fold users. rewrite andb_true_iff, Nat.leb_le. reflexivity.
    + exfalso. unfold Spec.earlier_window in Hpos.
      replace (Z.to_nat w) with 0%nat in Hpos by lia.
      rewrite last_n_zero in Hpos. vm_compute in Hpos. discriminate.
Qed.

Lemma detectScopeCreep_spec_witness :
  exists b, detectScopeCreep growing_requests None = Ok b
            /\ (b = true <-> Spec.scope_creep_by_quotient 5 1.5%float growing_requests).
Proof.
  apply (detectScopeCreep_spec growing_requests None); vm_compute;
    first [ discriminate | reflexivity ].
Defined.

(** Ten empty user messages fill both windows; both means are zero, so the
    recent mean is at least [growthRatio] times the earlier one and the
    question counts are equal, yet zero divided by zero is not at least
    [growthRatio] and the detector returns false. *)
Lemma scope_creep_as_worded_fails :
  5 * 2 <= Z.of_nat (List.length (Spec.user_messages ten_empty))
  /\ Spec.scope_creep_as_worded 5 1.5%float ten_empty
  /\ detectScopeCreep ten_empty None = Ok false
  /\ ~ (detectScopeCreep ten_empty None = Ok true
        <-> Spec.scope_creep_as_worded 5 1.5%float ten_empty).
Proof.
  assert (Hw : Spec.scope_creep_as_worded 5 1.5%float ten_empty).
  { split; [ vm_compute; reflexivity | vm_compute; lia ]. }
  assert (Hd : detectScopeCreep ten_empty None = Ok false) by (vm_compute; reflexivity).
  split; [ vm_compute; discriminate | ].
  split; [ exact Hw | ].
  split; [ exact Hd | ].
  intros [_ H]. specialize (H Hw). rewrite Hd in H. discriminate.
Qed.

(** In binary64 the product form and the quotient form also part ways away
    from zero: with window lengths summing to 26 and 39 the quotient of the
    means is exactly 1.5 and the detector triggers, while 1.5 times the
    earlier mean rounds up past the recent mean. *)
Lemma scope_creep_product_rounds :
  detectScopeCreep rounding_requests None = Ok true
  /\ Spec.scope_creep_by_quotient 5 1.5%float rounding_requests
  /\ ~ Spec.scope_creep_as_worded 5 1.5%float rounding_requests.
Proof.
  split; [ vm_compute; reflexivity | ].
  split.
  - split; [ vm_compute; reflexivity | vm_compute; lia ].
  - intros [H _]. vm_compute in H. discriminate.
Qed.

(* ================================================================== *)
(** * Saturation                                                        *)
(* ================================================================== *)

Section Counting.

Context {A : Type} (p : A -> bool).

Lemma count_filter_filter (q : A -> bool) (l : list A) :
  List.length (filter q (filter p l)) = Spec.count (fun x => p x && q x) l.
Proof.
  induction l as [ | x l IH ]; simpl; [ reflexivity | ].
  destruct (p x); simpl; [ destruct (q x); simpl; now rewrite IH | exact IH ].
Qed.

Lemma count_positive (l : list A) :
  (1 <= Spec.count p l)%nat
  <-> exists i x, nth_error l i = Some x /\ p x = true.
Proof.
  induction l as [ | a l IH ]; simpl.
  - split; [ lia | ]. intros (i & x & H & _). destruct i; discriminate.
  - split.
    + destruct (p a) eqn:Ha.
      * intros _. exists 0%nat, a. now split.
      * intros H. apply IH in H as (i & x & Hi & Hx). exists (S i), x. now split.
    + intros ([ | i ] & x & Hi & Hx); simpl in Hi.
      * injection Hi as ->. rewrite Hx. lia.
      * assert (1 <= Spec.count p l)%nat by (apply IH; eauto).
        destruct (p a); lia.
Qed.

Lemma count_two (l : list A) :
  (2 <= Spec.count p l)%nat
  <-> exists i j x y, (i < j)%nat
        /\ nth_error l i = Some x /\ nth_error l j = Some y
        /\ p x = true /\ p y = true.
Proof.
  induction l as [ | a l IH ]; simpl.
  - split; [ lia | ]. intros (i & j & x & y & _ & H & _). destruct i; discriminate.
  - split.
    + destruct (p a) eqn:Ha; intros H.
      * assert (H1 : (1 <= Spec.count p l)%nat) by lia.
        apply count_positive in H1 as (j & y & Hj & Hy).
        exists 0%nat, (S j), a, y. repeat split; try assumption. lia.
      * apply IH in H as (i & j & x & y & Hij & Hi & Hj & Hx & Hy).
        exists (S i), (S j), x, y. repeat split; try assumption. lia.
    + intros (i & j & x & y & Hij & Hi & Hj & Hx & Hy).
      destruct j as [ | j ]; [ lia | ]. simpl in Hj.
      destruct i as [ | i ]; simpl in Hi.
      * injection Hi as ->. rewrite Hx.
        assert (1 <= Spec.count p l)%nat by (apply count_positive; eauto). lia.
      * assert (2 <= Spec.count p l)%nat.
        { apply IH. exists i, j, x, y. repeat split; try assumption. lia. }
        destruct (p a); lia.
Qed.

End Counting.

Lemma at_least_two_count (P : Message -> Prop) (p : Message -> bool)
    (conversation : list Message) :
  (forall m, P m <-> p m = true) ->
  (Spec.at_least_two P conversation <-> (2 <= Spec.count p conversation)%nat).
Proof.
  intros HP. rewrite count_two. unfold Spec.at_least_two.
  split; intros (i & j & x & y & Hij & Hi & Hj & Hx & Hy);
    exists i, j, x, y; repeat split; try assumption; now apply HP.
Qed.

Lemma is_user_iff (m : Message) : role m = user <-> is_user m = true.
Proof.
  unfold is_user. destruct (role m); simpl; split; intros H;
    try reflexivity; discriminate.
Qed.

Lemma more_request_iff (requestPatterns : list string) (t : float) (m : Message) :
  Spec.more_request requestPatterns t m
  <-> (is_user m && gt (timestamp m) t) && requests_more requestPatterns m = true.
Proof.
  unfold Spec.more_request, requests_more.
  rewrite !andb_true_iff, existsb_exists, is_user_iff. tauto.
Qed.

Lemma nth_substantive_filter (minLen : Z) (conversation : list Message) (k : nat) :
  Spec.nth_substantive minLen (S k) conversation
  = nth_error (filter (Spec.substantive minLen) conversation) k.
Proof.
  revert k. induction conversation as [ | m rest IH ]; intros k.
  - destruct k; reflexivity.
  - cbn [Spec.nth_substantive filter].
    destruct (Spec.substantive minLen m).
    + destruct k as [ | k ]; [ reflexivity | ]. cbn [nth_error]. apply IH.
    + apply IH.
Qed.

Lemma detectSaturation_unfold (messages : list Message)
    (options : option SaturationOptions) :
  detectSaturation messages options
  = let T := field options assistantResponseThreshold 3 in
    let minLen := field options minAssistantLength 200 in
    let patterns := field options requestPatterns default_requestPatterns in
    let responses := filter (Spec.substantive minLen) messages in
    if Z.of_nat (List.length responses) <? T then Ok false
    else
      t <- prop (index responses (T - 1)) timestamp ;;
      Ok (2 <=? Spec.count (fun m => (is_user m && gt (timestamp m) t)
                                      && requests_more patterns m) messages)%nat.
Proof.
  unfold detectSaturation. cbv zeta.
  change (fun m : Message =>
            is_assistant m
            && (field options minAssistantLength 200 <=? Z.of_nat (String.length (content m))))
    with (Spec.substantive (field options minAssistantLength 200)).
  destruct (_ <? _); [ reflexivity | ].
  destruct (prop _ _) as [ t | e ]; [ | reflexivity ]. cbn [bind].
  rewrite <- count_filter_filter.
  destruct (Nat.eqb_spec (List.length (filter (fun m => is_user m && gt (timestamp m) t) messages)) 0)
    as [ Hz | Hnz ]; [ | reflexivity ].
  apply length_zero_iff_nil in Hz. rewrite Hz. reflexivity.
Qed.

(** A threshold below one makes [detectSaturation] read the timestamp of
    [substantiveResponses[-1]], which is [undefined]. *)
Lemma detectSaturation_throws (messages : list Message)
    (options : option SaturationOptions) :
  field options assistantResponseThreshold 3 <= 0 ->
  detectSaturation messages options = Throw TypeError.
Proof.
  intros HT. rewrite detectSaturation_unfold. cbv zeta.
  destruct (Z.ltb_spec (Z.of_nat (List.length (filter (Spec.substantive (field options minAssistantLength 200)) messages)))
                       (field options assistantResponseThreshold 3)); [ lia | ].
  rewrite index_negative by lia. reflexivity.
Qed.

Lemma detectSaturation_total (messages : list Message)
    (options : option SaturationOptions) :
  1 <= field options assistantResponseThreshold 3 ->
  exists b, detectSaturation messages options = Ok b.
Proof.
  intros HT. rewrite detectSaturation_unfold. cbv zeta.
  destruct (Z.ltb_spec
              (Z.of_nat (List.length (filter (Spec.substantive (field options minAssistantLength 200)) messages)))
              (field options assistantResponseThreshold 3)) as [ H | H ].
  - now exists false.
  - rewrite index_nonnegative by lia.
    destruct (nth_error _ _) as [ m | ] eqn:Hm.
    + eexists. reflexivity.
    + apply nth_error_None in Hm. lia.
Qed.

(** X10. For an integer [assistantResponseThreshold] (the thresholds of
    this model; a fractional or [NaN] threshold is not covered),
    [detectSaturation] throws a [TypeError] exactly when the threshold is
    below one, and then it does so for every conversation, the empty one
    included: the length test passes and
    [substantiveResponses[threshold - 1]] is [undefined]. *)
Lemma detectSaturation_throws_iff (messages : list Message)
    (options : option SaturationOptions) :
  detectSaturation messages options = Throw TypeError
  <-> field options assistantResponseThreshold 3 <= 0.
Proof.
  split.
  - intros H.
    destruct (Z_lt_le_dec 0 (field options assistantResponseThreshold 3)) as [ HT | HT ];
      [ | exact HT ].
    destruct (detectSaturation_total messages options) as [b Hb]; [ lia | ].
    rewrite Hb in H. discriminate.
  - apply detectSaturation_throws.
Qed.

(** C4. With a threshold of at least one response, [detectSaturation]
    returns false when fewer than [assistantResponseThreshold] assistant
    messages have a content length of at least [minAssistantLength].
    Otherwise the [assistantResponseThreshold]-th such message in
    conversation order (counting from one) exists, the detector returns, and
    it returns true exactly when at least two user messages with a timestamp
    strictly later than that message's have lowercased content that contains
    some configured pattern. *)
Theorem detectSaturation_spec (conversation : list Message)
    (options : option SaturationOptions) :
  let T := field options assistantResponseThreshold 3 in
  let minLen := field options minAssistantLength 200 in
  let patterns := field options requestPatterns default_requestPatterns in
  1 <= T ->
  (Z.of_nat (Spec.count (Spec.substantive minLen) conversation) < T ->
   detectSaturation conversation options = Ok false)
  /\ (T <= Z.of_nat (Spec.count (Spec.substantive minLen) conversation) ->
      exists m b,
        Spec.nth_substantive minLen (Z.to_nat T) conversation = Some m
        /\ detectSaturation conversation options = Ok b
        /\ (b = true <->
            Spec.at_least_two (Spec.more_request patterns (timestamp m)) conversation)).
Proof.
  intros T minLen patterns HT.
  rewrite detectSaturation_unfold. cbv zeta. fold T minLen patterns.
  rewrite <- count_filter.
  set (responses := filter (Spec.substantive minLen) conversation).
  split; intros Hlen.
  - destruct (Z.ltb_spec (Z.of_nat (List.length responses)) T); [ reflexivity | lia ].
  - destruct (Z.ltb_spec (Z.of_nat (List.length responses)) T); [ lia | ].
    replace (Z.to_nat T) with (S (Z.to_nat (T - 1))) by lia.
    rewrite index_nonnegative by lia.
    rewrite nth_substantive_filter. fold responses.
    destruct (nth_error responses (Z.to_nat (T - 1))) as [ m | ] eqn:Hm.
    + exists m. eexists. split; [ reflexivity | ]. split; [ reflexivity | ].
      rewrite (at_least_two_count _ _ conversation (more_request_iff patterns (timestamp m))).
      apply Nat.leb_le.
    + apply nth_error_None in Hm. lia.
Qed.

Lemma detectSaturation_spec_witness :
  exists m b,
    Spec.nth_substantive 200 3 asking_for_more = Some m
    /\ detectSaturation asking_for_more None = Ok b
    /\ (b = true <->
        Spec.at_least_two (Spec.more_request default_requestPatterns (timestamp m))
                          asking_for_more).
Proof.
  apply (detectSaturation_spec asking_for_more None); vm_compute; discriminate.
Defined.


(* ================================================================== *)
(** * Thresholds below two, and the role of assistant messages          *)
(* ================================================================== *)

(** C10. [detectLoop] with [{ threshold: 1 }] returns true whenever the
    conversation has at least one user message, and with [{ threshold: 0 }]
    it returns true for every conversation, the empty one included: the
    window holds no consecutive pair, whatever the messages say and
    whatever the similarity floor is. *)
Theorem detectLoop_small_threshold (conversation : list Message)
    (floor : option float) :
  (Spec.user_messages conversation <> [] ->
   detectLoop conversation (Some (mkLoopOptions (Some 1) floor)) = Ok true)
  /\ detectLoop conversation (Some (mkLoopOptions (Some 0) floor)) = Ok true
  /\ detectLoop [] (Some (mkLoopOptions (Some 0) floor)) = Ok true.
Proof.
  split; [ | split; now apply detectLoop_threshold_zero ].
  intros Hne.
  pose proof (detectLoop_threshold_positive conversation
                (Some (mkLoopOptions (Some 1) floor))) as E.
  cbv zeta in E. cbn [field threshold] in E. rewrite E by lia. clear E.
  destruct (Spec.user_messages conversation) as [ | m users ] eqn:Hu;
    [ now elim Hne | ].
  destruct (Z.ltb_spec (Z.of_nat (List.length (m :: users))) 1) as [ H | _ ];
    [ cbn [List.length] in H; lia | ].
  rewrite consecutive_pairs_short; [ reflexivity | ].
  rewrite last_n_length. lia.
Qed.

Lemma detectLoop_small_threshold_witness :
  detectLoop [user_says "anything"] (Some (mkLoopOptions (Some 1) None)) = Ok true.
Proof.
  apply (proj1 (detectLoop_small_threshold [user_says "anything"] None)).
  discriminate.
Defined.

(** C9. Two conversations with the same user-role messages (same contents
    and timestamps, in the same order) get the same answer from
    [detectLoop], [detectVelocityCollapse] and [detectScopeCreep], whatever
    the options: assistant messages have no influence on these three. *)
Theorem user_messages_decide (c1 c2 : list Message)
    (loopOptions : option LoopOptions)
    (velocityOptions : option VelocityCollapseOptions)
    (scopeOptions : option ScopeCreepOptions) :
  Spec.user_messages c1 = Spec.user_messages c2 ->
  detectLoop c1 loopOptions = detectLoop c2 loopOptions
  /\ detectVelocityCollapse c1 velocityOptions = detectVelocityCollapse c2 velocityOptions
  /\ detectScopeCreep c1 scopeOptions = detectScopeCreep c2 scopeOptions.
Proof.
  intros H.
  rewrite !detectLoop_unfold, !detectVelocityCollapse_unfold, !detectScopeCreep_unfold.
  cbv zeta. rewrite H. repeat split.
Qed.

Lemma user_messages_decide_witness :
  detectLoop loopConversation None = detectLoop loopRequests None
  /\ detectVelocityCollapse loopConversation None = detectVelocityCollapse loopRequests None
  /\ detectScopeCreep loopConversation None = detectScopeCreep loopRequests None.
Proof.
  apply (user_messages_decide loopConversation loopRequests None None None).
  reflexivity.
Defined.

(* ================================================================== *)
(** * The aggregator                                                    *)
(* ================================================================== *)

Lemma check_unfold (messages : list Message) (options : option CheckOptions)
    (b1 b2 b3 b4 : bool) :
  detectLoop messages (sub_options options loop) = Ok b1 ->
  detectVelocityCollapse messages (sub_options options velocityCollapse) = Ok b2 ->
  detectScopeCreep messages (sub_options options scopeCreep) = Ok b3 ->
  detectSaturation messages (sub_options options saturation) = Ok b4 ->
  check messages options
  = let signals :=
      push_if b4 "saturation"
        (push_if b3 "scope-creep"
           (push_if b2 "velocity-collapse" (push_if b1 "loop" []))) in
    Ok (mkResult (0 <? List.length signals)%nat signals).
Proof.
  intros H1 H2 H3 H4. unfold check. rewrite H1, H2, H3, H4. reflexivity.
Qed.

(** [check] throws exactly when [detectSaturation] does. *)
Lemma check_throws (messages : list Message) (options : option CheckOptions) :
  field (sub_options options saturation) assistantResponseThreshold 3 <= 0 ->
  check messages options = Throw TypeError.
Proof.
  intros HT. unfold check.
  destruct (detectLoop_total messages (sub_options options loop)) as [b1 ->].
  destruct (detectVelocityCollapse_total messages (sub_options options velocityCollapse)) as [b2 ->].
  destruct (detectScopeCreep_total messages (sub_options options scopeCreep)) as [b3 ->].
  cbn [bind]. now rewrite detectSaturation_throws.
Qed.

Lemma detector_loop c o :
  Spec.detector "loop" c o = detectLoop c (sub_options o loop).
Proof. reflexivity. Qed.

Lemma detector_velocity c o :
  Spec.detector "velocity-collapse" c o
  = detectVelocityCollapse c (sub_options o velocityCollapse).
Proof. reflexivity. Qed.

Lemma detector_scope c o :
  Spec.detector "scope-creep" c o = detectScopeCreep c (sub_options o scopeCreep).
Proof. reflexivity. Qed.

Lemma detector_saturation c o :
  Spec.detector "saturation" c o = detectSaturation c (sub_options o saturation).
Proof. reflexivity. Qed.

Ltac subsequence_of_tags :=
  repeat first [ apply Spec.sub_nil | apply Spec.sub_keep | apply Spec.sub_skip ].

Ltac distinct_tags :=
  repeat (constructor; [ cbn [In]; intuition discriminate | ]); constructor.

Ltac tag_cases H :=
  cbn [In Spec.tags] in H;
  repeat (destruct H as [ H | H ]; [ subst | ]); [ .. | contradiction ].

Lemma check_returns (messages : list Message) (options : option CheckOptions) :
  1 <= field (sub_options options saturation) assistantResponseThreshold 3 ->
  exists b1 b2 b3 b4,
    detectLoop messages (sub_options options loop) = Ok b1
    /\ detectVelocityCollapse messages (sub_options options velocityCollapse) = Ok b2
    /\ detectScopeCreep messages (sub_options options scopeCreep) = Ok b3
    /\ detectSaturation messages (sub_options options saturation) = Ok b4
    /\ check messages options
       = Ok (mkResult
               (0 <? List.length
                       (push_if b4 "saturation"
                          (push_if b3 "scope-creep"
                             (push_if b2 "velocity-collapse" (push_if b1 "loop" [])))))%nat
               (push_if b4 "saturation"
                  (push_if b3 "scope-creep"
                     (push_if b2 "velocity-collapse" (push_if b1 "loop" []))))).
Proof.
  intros HT.
  destruct (detectLoop_total messages (sub_options options loop)) as [b1 H1].
  destruct (detectVelocityCollapse_total messages (sub_options options velocityCollapse)) as [b2 H2].
  destruct (detectScopeCreep_total messages (sub_options options scopeCreep)) as [b3 H3].
  destruct (detectSaturation_total messages (sub_options options saturation) HT) as [b4 H4].
  exists b1, b2, b3, b4. repeat (split; [ assumption | ]).
  apply (check_unfold _ _ _ _ _ _ H1 H2 H3 H4).
Qed.

(** C6. [check] returns a Result exactly when the saturation threshold
    is at least one (below that it throws), and every Result it returns,
    whatever the conversation and the options, satisfies: [triggered] is true iff [signals] is non-empty; [signals] is a
    subsequence of loop, velocity-collapse, scope-creep, saturation (each tag
    at most once, in that order); and a tag is in [signals] iff the
    corresponding detector, applied to the conversation with its own options
    sub-record (defaults when absent), returns true. *)
Theorem check_spec (conversation : list Message) (options : option CheckOptions) :
  ((exists r, check conversation options = Ok r)
   <-> 1 <= field (sub_options options saturation) assistantResponseThreshold 3)
  /\ (forall r, check conversation options = Ok r ->
        (triggered r = true <-> signals r <> [])
        /\ Spec.subsequence (signals r) Spec.tags
        /\ NoDup (signals r)
        /\ (forall tag, In tag Spec.tags ->
              (In tag (signals r)
               <-> Spec.detector tag conversation options = Ok true))).
Proof.
  split.
  - split.
    + intros [r Hr].
      destruct (Z_lt_le_dec 0 (field (sub_options options saturation) assistantResponseThreshold 3))
        as [ HT | HT ]; [ lia | ].
      rewrite check_throws in Hr by exact HT. discriminate.
    + intros HT. destruct (check_returns conversation options HT)
        as (b1 & b2 & b3 & b4 & _ & _ & _ & _ & E).
      eexists. exact E.
  - intros r Hr.
    destruct (Z_lt_le_dec 0 (field (sub_options options saturation) assistantResponseThreshold 3))
      as [ HT | HT ].
    + destruct (check_returns conversation options) as (b1 & b2 & b3 & b4 & H1 & H2 & H3 & H4 & E);
        [ lia | ].
      rewrite E in Hr. injection Hr as <-. cbn [triggered signals].
      split; [ | split; [ | split ] ].
      * destruct b1, b2, b3, b4; cbn; split; intros H; try reflexivity;
          try discriminate; now elim H.
      * destruct b1, b2, b3, b4; cbn; subsequence_of_tags.
      * destruct b1, b2, b3, b4; cbn; distinct_tags.
      * intros tag Htag. tag_cases Htag.
        -- rewrite detector_loop, H1.
           destruct b1, b2, b3, b4; cbn; intuition (try discriminate; try congruence).
        -- rewrite detector_velocity, H2.
           destruct b1, b2, b3, b4; cbn; intuition (try discriminate; try congruence).
        -- rewrite detector_scope, H3.
           destruct b1, b2, b3, b4; cbn; intuition (try discriminate; try congruence).
        -- rewrite detector_saturation, H4.
           destruct b1, b2, b3, b4; cbn; intuition (try discriminate; try congruence).
    + rewrite check_throws in Hr by exact HT. discriminate.
Qed.

Lemma check_spec_witness :
  (triggered (mkResult true ["loop"]) = true <-> signals (mkResult true ["loop"]) <> [])
  /\ Spec.subsequence (signals (mkResult true ["loop"])) Spec.tags
  /\ NoDup (signals (mkResult true ["loop"]))
  /\ (forall tag, In tag Spec.tags ->
        (In tag (signals (mkResult true ["loop"]))
         <-> Spec.detector tag loopConversation None = Ok true)).
Proof.
  apply (proj2 (check_spec loopConversation None) (mkResult true ["loop"])).
  vm_compute. reflexivity.
Defined.

(* ================================================================== *)
(** * The loop scenario                                                 *)
(* ================================================================== *)

(** C8. A conversation whose user-authored messages are exactly "Rewrite
    the intro paragraph", "Rewrite the intro paragraph differently" and
    "Rewrite the intro paragraph again please", in that order and
    interleaved with any assistant messages, makes [detectLoop] with default
    options return true and [check] with default options return a Result
    whose [signals] contains "loop". *)
Theorem loop_scenario (conversation : list Message) :
  map content (Spec.user_messages conversation)
  = [ "Rewrite the intro paragraph";
      "Rewrite the intro paragraph differently";
      "Rewrite the intro paragraph again please" ] ->
  detectLoop conversation None = Ok true
  /\ exists r, check conversation None = Ok r /\ In "loop" (signals r).
Proof.
  intros H.
  assert (HL : detectLoop conversation None = Ok true).
  { pose proof (detectLoop_threshold_positive conversation None) as E.
    cbv zeta in E. cbn [field] in E. rewrite E by lia. clear E.
    destruct (Spec.user_messages conversation) as [ | m1 [ | m2 [ | m3 [ | m4 l ] ] ] ];
      try discriminate H.
    destruct m1, m2, m3. cbn [map content] in H.
    injection H as -> -> ->. vm_compute. reflexivity. }
  split; [ exact HL | ].
  destruct (detectVelocityCollapse_total conversation None) as [b2 H2].
  destruct (detectScopeCreep_total conversation None) as [b3 H3].
  destruct (detectSaturation_total conversation None) as [b4 H4];
    [ cbn [field]; lia | ].
  eexists. split.
  - apply (check_unfold conversation None true b2 b3 b4); assumption.
  - cbv zeta. cbn [signals]. destruct b2, b3, b4; cbn; auto.
Qed.

Lemma loop_scenario_witness :
  detectLoop loopConversation None = Ok true
  /\ exists r, check loopConversation None = Ok r /\ In "loop" (signals r).
Proof.
  apply (loop_scenario loopConversation). reflexivity.
Defined.

(* ================================================================== *)
(** * Cosine similarity against an empty sequence                       *)
(* ================================================================== *)

Lemma cosineSimilarity_both_empty : cosineSimilarity [] [] = 0%float.
Proof. reflexivity. Qed.

(** The guard [denom === 0 ? 0 : dot / denom] does its work whenever the
    accumulated magnitudes are Numbers: if one of them is zero and the other
    is finite, the similarity is exactly 0. *)
Lemma cosineSimilarity_zero_magnitude (tokensA tokensB : list string) :
  let a := freq tokensA in
  let b := freq tokensB in
  let sums := accumulate a b (set_of (keys a ++ keys b)) in
  (magA sums = 0%float /\ PrimFloat.is_finite (PrimFloat.sqrt (magB sums)) = true)
  \/ (magB sums = 0%float /\ PrimFloat.is_finite (PrimFloat.sqrt (magA sums)) = true) ->
  cosineSimilarity tokensA tokensB = 0%float.
Proof.
  intros a b sums H. unfold cosineSimilarity. fold a b. fold sums.
  destruct H as [ [Hz Hfin] | [Hz Hfin] ]; rewrite Hz;
    change (PrimFloat.sqrt 0%float) with 0%float;
    destruct (mul_zero_finite _ Hfin) as [Hl Hr].
  - now rewrite Hl.
  - now rewrite Hr.
Qed.

Lemma cosineSimilarity_zero_magnitude_witness :
  cosineSimilarity [] ["more"; "more"; "please"] = 0%float.
Proof.
  apply (cosineSimilarity_zero_magnitude [] ["more"; "more"; "please"]).
  left. split; vm_compute; reflexivity.
Defined.

(** ** An empty side, away from the prototype keys *)

Lemma set_of_from_incl (seen xs : list string) (k : string) :
  In k (set_of_from seen xs) -> In k xs.
Proof.
  revert seen. induction xs as [ | x xs IH ]; intros seen; simpl; [ tauto | ].
  destruct (mem x seen); simpl; intros H.
  - right. now apply IH in H.
  - destruct H as [ -> | H ]; [ now left | right; now apply IH in H ].
Qed.

Lemma insert_index_incl (n : N) (k k' : string) (sorted : list (N * string)) :
  In k' (map snd (insert_index n k sorted)) -> k' = k \/ In k' (map snd sorted).
Proof.
  induction sorted as [ | [n0 k0] sorted IH ]; simpl.
  - intros [ <- | [] ]. now left.
  - destruct (n <=? n0)%N; simpl.
    + intros [ <- | H ]; [ now left | now right ].
    + intros [ <- | H ]; [ right; now left | ].
      destruct (IH H) as [ -> | H' ]; [ now left | right; now right ].
Qed.

Lemma keys_incl (o : object) (k : string) : In k (keys o) -> In k (map fst o).
Proof.
  unfold keys. rewrite in_app_iff.
  induction o as [ | [k0 v0] o IH ]; simpl; [ tauto | ].
  destruct (array_index k0); simpl.
  - intros [ H | H ].
    + destruct (insert_index_incl _ _ _ _ H) as [ -> | H' ]; [ now left | ].
      right. apply IH. now left.
    + right. apply IH. now right.
  - intros [ H | [ <- | H ] ].
    + right. apply IH. now left.
    + now left.
    + right. apply IH. now right.
Qed.

Lemma put_own_incl (o : object) (k k' : string) (v : value) :
  In k' (map fst (put_own o k v)) -> k' = k \/ In k' (map fst o).
Proof.
  induction o as [ | [k0 v0] o IH ]; simpl.
  - intros [ <- | [] ]. now left.
  - destruct (String.eqb k k0); simpl.
    + intros [ <- | H ]; right; [ now left | now right ].
    + intros [ <- | H ]; [ right; now left | ].
      destruct (IH H) as [ -> | H' ]; [ now left | right; now right ].
Qed.

Lemma freq_incl (tokens : list string) (k : string) :
  In k (map fst (freq tokens)) -> In k tokens.
Proof.
  unfold freq.
  assert (G : forall o, In k (map fst (fold_left (fun map t => set map t (plus_one (or_zero (get map t)))) tokens o)) ->
                        In k (map fst o) \/ In k tokens).
  { induction tokens as [ | t tokens IH ]; intros o; simpl; [ tauto | ].
    intros H. apply IH in H. destruct H as [ H | H ]; [ | right; now right ].
    unfold set in H. destruct (String.eqb t "__proto__"); [ now left | ].
    destruct (put_own_incl _ _ _ _ H) as [ -> | H' ]; [ right; now left | now left ]. }
  intros H. destruct (G empty_object H) as [ [] | H' ]. exact H'.
Qed.

(** The keys of the loop are tokens of one side or the other. *)
Lemma allKeys_incl (tokensA tokensB : list string) (k : string) :
  In k (set_of (keys (freq tokensA) ++ keys (freq tokensB))) ->
  In k tokensA \/ In k tokensB.
Proof.
  intros H. apply set_of_from_incl, in_app_iff in H.
  destruct H as [ H | H ]; [ left | right ]; now apply freq_incl, keys_incl.
Qed.

(** Over keys that [Object.prototype] does not have, an empty map
    contributes nothing to its own magnitude. *)
Lemma get_empty_object (k : string) :
  mem k prototype_keys = false -> to_number (or_zero (get empty_object k)) = 0%float.
Proof. intros H. unfold get. cbn [own empty_object]. now rewrite H. Qed.

Lemma accumulate_empty_left (b : object) (allKeys : list string) :
  (forall k, In k allKeys -> mem k prototype_keys = false) ->
  magA (accumulate empty_object b allKeys) = 0%float.
Proof.
  intros Hk. unfold accumulate.
  assert (G : forall d mb,
             magA (fold_left (accumulate_key empty_object b) allKeys (mkSums d 0%float mb))
             = 0%float).
  { induction allKeys as [ | k ks IH ]; intros d mb; [ reflexivity | ].
    cbn [fold_left]. unfold accumulate_key at 2. cbn [dot magA magB].
    rewrite get_empty_object by (apply Hk; now left).
    change (PrimFloat.add 0 (PrimFloat.mul 0 0))%float with 0%float.
    apply IH. intros k' H. apply Hk. now right. }
  apply G.
Qed.

Lemma accumulate_empty_right (a : object) (allKeys : list string) :
  (forall k, In k allKeys -> mem k prototype_keys = false) ->
  magB (accumulate a empty_object allKeys) = 0%float.
Proof.
  intros Hk. unfold accumulate.
  assert (G : forall d ma,
             magB (fold_left (accumulate_key a empty_object) allKeys (mkSums d ma 0%float))
             = 0%float).
  { induction allKeys as [ | k ks IH ]; intros d ma; [ reflexivity | ].
    cbn [fold_left]. unfold accumulate_key at 2. cbn [dot magA magB].
    rewrite get_empty_object by (apply Hk; now left).
    change (PrimFloat.add 0 (PrimFloat.mul 0 0))%float with 0%float.
    apply IH. intros k' H. apply Hk. now right. }
  apply G.
Qed.

(** X7. Against an empty token sequence, on either side, the similarity
    is exactly 0, as long as no token names a property of
    [Object.prototype] and the magnitude accumulated for the other side has
    a finite square root. *)
Lemma cosineSimilarity_empty (tokens : list string) :
  (forall t, In t tokens -> mem t prototype_keys = false) ->
  (PrimFloat.is_finite
     (PrimFloat.sqrt (magB (accumulate (freq []) (freq tokens)
                                       (set_of (keys (freq []) ++ keys (freq tokens))))))
   = true ->
   cosineSimilarity [] tokens = 0%float)
  /\ (PrimFloat.is_finite
        (PrimFloat.sqrt (magA (accumulate (freq tokens) (freq [])
                                          (set_of (keys (freq tokens) ++ keys (freq []))))))
      = true ->
      cosineSimilarity tokens [] = 0%float).
Proof.
  intros Hfree.
  assert (Hl : forall k, In k (set_of (keys (freq []) ++ keys (freq tokens))) ->
                         mem k prototype_keys = false).
  { intros k H. destruct (allKeys_incl _ _ _ H) as [ [] | H' ]. now apply Hfree. }
  assert (Hr : forall k, In k (set_of (keys (freq tokens) ++ keys (freq []))) ->
                         mem k prototype_keys = false).
  { intros k H. destruct (allKeys_incl _ _ _ H) as [ H' | [] ]. now apply Hfree. }
  split; intros Hfin; apply cosineSimilarity_zero_magnitude; cbv zeta.
  - left. split; [ | exact Hfin ]. now apply (accumulate_empty_left (freq tokens)).
  - right. split; [ | exact Hfin ]. now apply (accumulate_empty_right (freq tokens)).
Qed.

(** ** An empty side and a prototype key *)

(** With the prototype key the accumulated magnitude of the empty side is
    [NaN], not zero. *)
Lemma magnitude_with_prototype_key :
  magA (accumulate (freq []) (freq ["constructor"])
                   (set_of (keys (freq []) ++ keys (freq ["constructor"]))))
  = PrimFloat.nan.
Proof. vm_compute. reflexivity. Qed.

(** C7. The scorer at an empty token sequence and the tokens of
    "constructor".  The frequency map is a plain object, so
    [map["constructor"]] is the inherited [Object] function rather than
    [undefined]: the count becomes a string, the products are [NaN], the
    denominator is [NaN] and not zero, and the similarity is [NaN] where the
    design document says 0.  Three identical requests that contain the word
    are therefore not a loop for [detectLoop]. *)
Theorem cosineSimilarity_prototype_key :
  tokenise EmptyString = []
  /\ tokenise "constructor" = ["constructor"]
  /\ freq ["constructor"] = [("constructor", VStr "constructor" 1)]
  /\ cosineSimilarity (tokenise EmptyString) (tokenise "constructor") = PrimFloat.nan
  /\ PrimFloat.eqb (cosineSimilarity [] ["constructor"]) 0%float = false
  /\ detectLoop constructor_requests None = Ok false.
Proof. repeat split; vm_compute; reflexivity. Qed.

(* ================================================================== *)
(** * Where the guards are missing                                      *)
(* ================================================================== *)

(** C3. Two places where a detector meets a zero divisor or an
    [undefined] without a guard.  In [detectScopeCreep] an earlier window of
    empty messages has mean length zero, the quotient of the means is
    [Infinity], and the detector triggers.  In [detectSaturation] a
    threshold of zero passes the length test and the read of
    [substantiveResponses[-1].timestamp] throws, for any conversation; so
    does [check]. *)
Theorem unguarded_operations :
  Spec.mean_length (Spec.earlier_window 5 silence_then_more) = 0%float
  /\ PrimFloat.div (Spec.mean_length (Spec.recent_window 5 silence_then_more))
                   (Spec.mean_length (Spec.earlier_window 5 silence_then_more))
     = PrimFloat.infinity
  /\ detectScopeCreep silence_then_more None = Ok true
  /\ (forall conversation,
        detectSaturation conversation (Some saturation_from_start) = Throw TypeError)
  /\ (forall conversation,
        check conversation
              (Some (mkCheckOptions None None None (Some saturation_from_start)))
        = Throw TypeError).
Proof.
  split; [ vm_compute; reflexivity | ].
  split; [ vm_compute; reflexivity | ].
  split; [ vm_compute; reflexivity | ].
  split; intros conversation.
  - apply detectSaturation_throws. cbn [field saturation_from_start assistantResponseThreshold]. lia.
  - apply check_throws. cbn. lia.
Qed.

(* ================================================================== *)
(** * Characters and strings                                            *)
(* ================================================================== *)

Lemma char_facts_hold (c : ascii) : char_facts c = true.
Proof.
  destruct c as [b0 b1 b2 b3 b4 b5 b6 b7].
  destruct b0, b1, b2, b3, b4, b5, b6, b7; reflexivity.
Qed.

Ltac char_fact c :=
  let H := fresh "H" in
  pose proof (char_facts_hold c) as H; unfold char_facts in H;
  repeat rewrite andb_true_iff in H.

Lemma lower_char_idempotent c : lower_char (lower_char c) = lower_char c.
Proof. char_fact c. now apply Ascii.eqb_eq. Qed.

Lemma is_space_lower c : is_space (lower_char c) = is_space c.
Proof. char_fact c. now apply Bool.eqb_prop. Qed.

Lemma is_word_lower c : is_word (lower_char c) = is_word c.
Proof. char_fact c. now apply Bool.eqb_prop. Qed.

Lemma lower_char_space c : is_space c = true -> lower_char c = c.
Proof.
  char_fact c. intros Hs. destruct H as [[[[[_ H] _] _] _] _].
  rewrite Hs in H. now apply Ascii.eqb_eq.
Qed.

Lemma lower_word_is_token c : is_word c = true -> is_token_char (lower_char c) = true.
Proof.
  char_fact c. intros Hw. destruct H as [[[[_ H] _] _] _]. now rewrite Hw in H.
Qed.

Lemma word_not_space c : is_word c = true -> is_space c = false.
Proof.
  char_fact c. intros Hw. destruct H as [[[_ H] _] _].
  rewrite Hw in H. now destruct (is_space c).
Qed.

Lemma token_char_facts c :
  is_token_char c = true ->
  lower_char c = c /\ is_word c = true /\ is_space c = false.
Proof.
  char_fact c. intros Ht. destruct H as [[_ H] _]. rewrite Ht in H. cbn [implb] in H.
  rewrite !andb_true_iff, negb_true_iff in H. destruct H as [[H1 H2] H3].
  repeat split; try assumption. now apply Ascii.eqb_eq.
Qed.

Lemma lower_char_not_upper c : is_upper (lower_char c) = false.
Proof. char_fact c. destruct H as [_ H]. now apply negb_true_iff. Qed.

Lemma append_nil_r (s : string) : (s ++ EmptyString)%string = s.
Proof. induction s as [ | c s IH ]; simpl; [ reflexivity | now rewrite IH ]. Qed.

Lemma append_assoc (s1 s2 s3 : string) :
  ((s1 ++ s2) ++ s3)%string = (s1 ++ (s2 ++ s3))%string.
Proof. induction s1 as [ | c s1 IH ]; simpl; [ reflexivity | now rewrite IH ]. Qed.

Lemma string_forall_append (p : ascii -> bool) (s1 s2 : string) :
  string_forall p (s1 ++ s2) = string_forall p s1 && string_forall p s2.
Proof.
  induction s1 as [ | c s1 IH ]; simpl; [ reflexivity | ].
  now rewrite IH, andb_assoc.
Qed.

Lemma toLowerCase_append (s1 s2 : string) :
  toLowerCase (s1 ++ s2) = (toLowerCase s1 ++ toLowerCase s2)%string.
Proof. induction s1 as [ | c s1 IH ]; simpl; [ reflexivity | now rewrite IH ]. Qed.

Lemma toLowerCase_idempotent (s : string) : toLowerCase (toLowerCase s) = toLowerCase s.
Proof.
  induction s as [ | c s IH ]; simpl; [ reflexivity | ].
  now rewrite lower_char_idempotent, IH.
Qed.

Lemma strip_punctuation_append (s1 s2 : string) :
  strip_punctuation (s1 ++ s2)
  = (strip_punctuation s1 ++ strip_punctuation s2)%string.
Proof.
  induction s1 as [ | c s1 IH ]; simpl; [ reflexivity | ].
  destruct (is_word c || is_space c); simpl; now rewrite IH.
Qed.

(* ================================================================== *)
(** * The tokeniser                                                     *)
(* ================================================================== *)

(** After lowercasing and stripping, only token characters and white
    space are left. *)
Lemma stripped_lowercase_chars (s : string) :
  string_forall (fun c => is_space c || is_token_char c)
                (strip_punctuation (toLowerCase s)) = true.
Proof.
  induction s as [ | c s IH ]; [ reflexivity | ].
  cbn [toLowerCase strip_punctuation].
  destruct (is_word (lower_char c)) eqn:Hw; cbn [orb].
  - cbn [string_forall]. rewrite IH, andb_true_r.
    rewrite is_word_lower in Hw. rewrite (lower_word_is_token c Hw). apply orb_true_r.
  - destruct (is_space (lower_char c)) eqn:Hs; [ | exact IH ].
    cbn [string_forall]. now rewrite Hs, IH.
Qed.

Lemma split_spaces_from_tokens (s : string) :
  forall skipping cur,
    string_forall is_token_char cur = true ->
    string_forall (fun c => is_space c || is_token_char c) s = true ->
    Forall (fun t => string_forall is_token_char t = true)
           (split_spaces_from skipping cur s).
Proof.
  induction s as [ | c s IH ]; intros skipping cur Hcur Hs.
  - repeat constructor. exact Hcur.
  - cbn [string_forall] in Hs. apply andb_true_iff in Hs as [Hc Hs].
    cbn [split_spaces_from]. destruct (is_space c) eqn:Hsp.
    + destruct skipping.
      * now apply IH.
      * constructor; [ exact Hcur | now apply IH ].
    + apply IH; [ | exact Hs ].
      rewrite string_forall_append, Hcur. cbn [string_forall andb].
      cbn [orb] in Hc. now rewrite Hc.
Qed.

Lemma tokenise_tokens (text : string) : Forall token (tokenise text).
Proof.
  unfold tokenise, split_spaces. apply Forall_forall. intros t Ht.
  apply filter_In in Ht as [Hin Hne]. split.
  - intros ->. discriminate.
  - pose proof (split_spaces_from_tokens (strip_punctuation (toLowerCase text))
                  false EmptyString eq_refl (stripped_lowercase_chars text)) as F.
    rewrite Forall_forall in F. now apply F.
Qed.

(** X1. Every token that [tokenise] returns is non-empty and consists
    only of the characters a-z, 0-9 and the underscore: no upper-case
    letter, no white space, no punctuation, and no character above
    U+007F survives. *)
Theorem tokenise_alphabet (text t : string) :
  In t (tokenise text) ->
  t <> EmptyString /\ string_forall is_token_char t = true.
Proof.
  intros H. pose proof (tokenise_tokens text) as F.
  rewrite Forall_forall in F. now apply F.
Qed.

Lemma tokenise_alphabet_witness :
  "dont" <> EmptyString /\ string_forall is_token_char "dont" = true.
Proof.
  apply (tokenise_alphabet "Don't STOP" "dont"). vm_compute. now left.
Defined.

Lemma clean_toLowerCase (s : string) :
  string_forall (fun c => is_space c || is_token_char c) s = true ->
  toLowerCase s = s.
Proof.
  induction s as [ | c s IH ]; [ reflexivity | ].
  cbn [string_forall toLowerCase]. intros H.
  apply andb_true_iff in H as [Hc Hs]. rewrite (IH Hs). f_equal.
  apply orb_true_iff in Hc as [ Hc | Hc ].
  - now apply lower_char_space.
  - now apply token_char_facts.
Qed.

Lemma clean_strip_punctuation (s : string) :
  string_forall (fun c => is_space c || is_token_char c) s = true ->
  strip_punctuation s = s.
Proof.
  induction s as [ | c s IH ]; [ reflexivity | ].
  cbn [string_forall strip_punctuation]. intros H.
  apply andb_true_iff in H as [Hc Hs]. rewrite (IH Hs).
  apply orb_true_iff in Hc as [ Hc | Hc ].
  - now rewrite Hc, orb_true_r.
  - destruct (token_char_facts c Hc) as (_ & Hw & _). now rewrite Hw.
Qed.

Lemma token_is_clean (t : string) :
  string_forall is_token_char t = true ->
  string_forall (fun c => is_space c || is_token_char c) t = true.
Proof.
  induction t as [ | c t IH ]; [ reflexivity | ].
  cbn [string_forall]. intros H. apply andb_true_iff in H as [Hc Ht].
  now rewrite Hc, orb_true_r, IH.
Qed.

Lemma join_spaces_clean (ts : list string) :
  Forall token ts ->
  string_forall (fun c => is_space c || is_token_char c) (join_spaces ts) = true.
Proof.
  unfold join_spaces. induction 1 as [ | t ts [_ Ht] Hts IH ]; [ reflexivity | ].
  cbn [concat]. destruct ts as [ | t' ts ]; [ now apply token_is_clean | ].
  rewrite !string_forall_append, (token_is_clean t Ht), IH. reflexivity.
Qed.

(** Reading a token moves it whole into the piece being read. *)
Lemma split_spaces_from_token (t : string) :
  forall skipping cur rest,
    t <> EmptyString ->
    string_forall is_token_char t = true ->
    split_spaces_from skipping cur (t ++ rest)
    = split_spaces_from false (cur ++ t) rest.
Proof.
  induction t as [ | c t IH ]; intros skipping cur rest Hne Ht; [ now elim Hne | ].
  cbn [string_forall] in Ht. apply andb_true_iff in Ht as [Hc Ht].
  destruct (token_char_facts c Hc) as (_ & _ & Hsp).
  cbn [append split_spaces_from]. rewrite Hsp.
  destruct t as [ | c' t ].
  - reflexivity.
  - rewrite IH by (try discriminate; exact Ht).
    now rewrite append_assoc.
Qed.

Lemma split_spaces_from_join (ts : list string) :
  forall t skipping,
    Forall token (t :: ts) ->
    split_spaces_from skipping EmptyString (join_spaces (t :: ts)) = t :: ts.
Proof.
  unfold join_spaces. induction ts as [ | t' ts IH ]; intros t skipping H;
    inversion H as [ | ? ? [Hne Ht] Hts ]; subst.
  - cbn [concat]. rewrite <- (append_nil_r t) at 1.
    now rewrite split_spaces_from_token.
  - change (concat " " (t :: t' :: ts))
      with (t ++ String " " (concat " " (t' :: ts)))%string.
    rewrite split_spaces_from_token by assumption.
    cbn [split_spaces_from append]. change (is_space " ") with true. cbv iota.
    f_equal. now apply IH.
Qed.

Lemma filter_tokens (ts : list string) :
  Forall token ts -> filter truthy_string ts = ts.
Proof.
  induction 1 as [ | t ts [Hne _] _ IH ]; [ reflexivity | ].
  cbn [filter]. unfold truthy_string at 1.
  destruct (String.eqb_spec t EmptyString) as [ -> | _ ]; [ now elim Hne | ].
  cbn [negb]. now rewrite IH.
Qed.

Lemma tokenise_join (ts : list string) :
  Forall token ts -> tokenise (join_spaces ts) = ts.
Proof.
  intros H. unfold tokenise.
  rewrite clean_toLowerCase, clean_strip_punctuation by now apply join_spaces_clean.
  destruct ts as [ | t ts ]; [ reflexivity | ].
  unfold split_spaces. rewrite split_spaces_from_join by assumption.
  now apply filter_tokens.
Qed.

(** X2. Tokens joined by single spaces tokenise back to themselves: for
    every list of non-empty words over a-z, 0-9 and the underscore,
    [tokenise(words.join(" "))] is that list.  In particular tokenising is
    idempotent: joining the tokens of any text and tokenising again gives
    the same tokens. *)
Theorem tokenise_round_trip (ts : list string) (text : string) :
  (Forall token ts -> tokenise (join_spaces ts) = ts)
  /\ tokenise (join_spaces (tokenise text)) = tokenise text.
Proof.
  split; [ apply tokenise_join | ].
  apply tokenise_join, tokenise_tokens.
Qed.

Lemma tokenise_round_trip_witness :
  tokenise (join_spaces ["make"; "it"; "2x"; "bigger"]) = ["make"; "it"; "2x"; "bigger"].
Proof.
  apply (proj1 (tokenise_round_trip ["make"; "it"; "2x"; "bigger"] EmptyString)).
  repeat constructor; discriminate.
Defined.

(** X3. In Latin-1 text (every code unit below U+0100, the strings of
    this model) punctuation is deleted, not treated as a separator, and
    letter case is ignored: removing a character that is neither a word
    character nor white space from anywhere in such a text leaves its tokens
    unchanged (so the words on either side of it become one token), and such
    a text and its lowercased form have the same tokens.  Text with
    characters from U+0100 on is not covered: there [toLowerCase] can turn a
    character outside [\w] into a letter (U+212A becomes k). *)
Theorem tokenise_ignores_punctuation_and_case (before after : string) (p : ascii) :
  (is_punctuation p = true ->
   tokenise (before ++ String p after) = tokenise (before ++ after))
  /\ tokenise (toLowerCase before) = tokenise before.
Proof.
  split.
  - intros Hp. unfold tokenise.
    rewrite !toLowerCase_append, !strip_punctuation_append.
    cbn [toLowerCase strip_punctuation].
    unfold is_punctuation in Hp. apply negb_true_iff in Hp.
    now rewrite is_word_lower, is_space_lower, Hp.
  - unfold tokenise. now rewrite toLowerCase_idempotent.
Qed.

Lemma tokenise_ignores_punctuation_and_case_witness :
  tokenise ("one" ++ String "," "two") = tokenise ("one" ++ "two").
Proof.
  apply (proj1 (tokenise_ignores_punctuation_and_case "one" "two" ",")).
  reflexivity.
Defined.

Lemma no_token_pieces (s : string) :
  forall skipping cur,
    filter truthy_string (split_spaces_from skipping cur s) = []
    <-> cur = EmptyString /\ string_forall is_space s = true.
Proof.
  induction s as [ | c s IH ]; intros skipping cur.
  - cbn [split_spaces_from filter string_forall]. unfold truthy_string.
    destruct (String.eqb_spec cur EmptyString) as [ -> | Hne ]; cbn [negb].
    + split; [ now split | reflexivity ].
    + split; [ discriminate | now intros [? _] ].
  - cbn [split_spaces_from string_forall]. destruct (is_space c) eqn:Hsp; cbn [andb].
    + destruct skipping; [ apply IH | ].
      cbn [filter]. unfold truthy_string at 1.
      destruct (String.eqb_spec cur EmptyString) as [ -> | Hne ]; cbn [negb].
      * rewrite IH. tauto.
      * split; [ discriminate | now intros [? _] ].
    + rewrite IH. split; [ | now intros [_ ?] ].
      intros [H _]. destruct cur; discriminate.
Qed.

Lemma only_spaces_left (s : string) :
  string_forall is_space (strip_punctuation (toLowerCase s))
  = string_forall (fun c => negb (is_word c)) s.
Proof.
  induction s as [ | c s IH ]; [ reflexivity | ].
  cbn [toLowerCase strip_punctuation string_forall].
  rewrite is_word_lower, is_space_lower.
  destruct (is_word c) eqn:Hw; cbn [orb negb andb].
  - cbn [string_forall]. now rewrite is_space_lower, (word_not_space c Hw).
  - destruct (is_space c) eqn:Hs; [ | exact IH ].
    cbn [string_forall]. now rewrite is_space_lower, Hs, IH.
Qed.

(** X4. For Latin-1 text (every code unit below U+0100, the strings of
    this model), [tokenise] returns no token exactly when the text has no
    word character (no letter A-Z or a-z, no digit, no underscore): the
    empty text, white space, punctuation and the characters U+0080 to U+00FF
    alone give the empty list, and a single word character is enough for a
    token.  Text with characters from U+0100 on is not covered: U+212A is no
    word character, but [toLowerCase] makes it the letter k. *)
Theorem tokenise_empty_iff (text : string) :
  tokenise text = [] <-> string_forall (fun c => negb (is_word c)) text = true.
Proof.
  unfold tokenise, split_spaces. rewrite no_token_pieces, only_spaces_left. tauto.
Qed.

(* ================================================================== *)
(** * The frequency map and the keys of [Object.prototype]              *)
(* ================================================================== *)

Lemma add_nan_l (x : float) : PrimFloat.add PrimFloat.nan x = PrimFloat.nan.
Proof. apply Prim2SF_inj. rewrite add_spec, Prim2SF_nan. reflexivity. Qed.

Lemma add_nan_r (x : float) : PrimFloat.add x PrimFloat.nan = PrimFloat.nan.
Proof.
  apply Prim2SF_inj. rewrite add_spec, Prim2SF_nan.
  unfold SF64add, SFadd. destruct (Prim2SF x); reflexivity.
Qed.

Lemma mul_nan_l (x : float) : PrimFloat.mul PrimFloat.nan x = PrimFloat.nan.
Proof. apply Prim2SF_inj. rewrite mul_spec, Prim2SF_nan. reflexivity. Qed.

Lemma div_nan_r (x : float) : PrimFloat.div x PrimFloat.nan = PrimFloat.nan.
Proof.
  apply Prim2SF_inj. rewrite div_spec, Prim2SF_nan.
  unfold SF64div, SFdiv. destruct (Prim2SF x); reflexivity.
Qed.

Lemma leb_nan_r (x : float) : PrimFloat.leb x PrimFloat.nan = false.
Proof.
  rewrite leb_spec, Prim2SF_nan. unfold SFleb, SFcompare.
  destruct (Prim2SF x); reflexivity.
Qed.

Lemma own_put_own (o : object) (k k' : string) (v : value) :
  own (put_own o k v) k' = if String.eqb k' k then Some v else own o k'.
Proof.
  induction o as [ | [k0 v0] o IH ]; cbn [put_own own].
  - destruct (String.eqb k' k); reflexivity.
  - destruct (String.eqb_spec k k0) as [ -> | Hne ]; cbn [own].
    + destruct (String.eqb k' k0); reflexivity.
    + rewrite IH. destruct (String.eqb_spec k' k0) as [ -> | Hne' ]; [ | reflexivity ].
      destruct (String.eqb_spec k0 k) as [ E | _ ]; [ now elim Hne | reflexivity ].
Qed.

Lemma mem_In (k : string) (ks : list string) : mem k ks = true <-> In k ks.
Proof.
  unfold mem. rewrite existsb_exists. split.
  - intros (x & Hx & E). apply String.eqb_eq in E. now subst.
  - intros H. exists k. split; [ exact H | apply String.eqb_refl ].
Qed.

Lemma freq_fold (tokens : list string) :
  freq tokens = fold_left count_token tokens empty_object.
Proof. reflexivity. Qed.

Lemma count_token_keeps_text (o : object) (t : string) :
  prototype_keys_hold_text o -> prototype_keys_hold_text (count_token o t).
Proof.
  intros Ho k v. unfold count_token, set.
  destruct (String.eqb t "__proto__"); [ apply Ho | ].
  rewrite own_put_own. destruct (String.eqb_spec k t) as [ -> | _ ]; [ | apply Ho ].
  intros E Hk. injection E as <-. unfold get.
  destruct (own o t) as [ v | ] eqn:Hown.
  - pose proof (Ho t v Hown Hk) as Hv. destruct v; [ discriminate | reflexivity | reflexivity ].
  - rewrite Hk. reflexivity.
Qed.

Lemma freq_keeps_text (tokens : list string) : prototype_keys_hold_text (freq tokens).
Proof.
  rewrite freq_fold.
  assert (G : forall o, prototype_keys_hold_text o ->
                        prototype_keys_hold_text (fold_left count_token tokens o)).
  { induction tokens as [ | t tokens IH ]; intros o Ho; [ exact Ho | ].
    cbn [fold_left]. apply IH. now apply count_token_keeps_text. }
  apply G. intros k v H. discriminate.
Qed.

(** Read from a frequency map, a prototype key is never a Number. *)
Lemma prototype_key_reads_nan (tokens : list string) (k : string) :
  mem k prototype_keys = true ->
  to_number (or_zero (get (freq tokens) k)) = PrimFloat.nan.
Proof.
  intros Hk. unfold get.
  destruct (own (freq tokens) k) as [ v | ] eqn:Hown.
  - pose proof (freq_keeps_text tokens k v Hown Hk) as Hv.
    destruct v; [ discriminate | reflexivity | reflexivity ].
  - rewrite Hk. reflexivity.
Qed.

Lemma count_token_keeps_keys (o : object) (t k : string) :
  own o k <> None -> own (count_token o t) k <> None.
Proof.
  unfold count_token, set. destruct (String.eqb t "__proto__"); [ tauto | ].
  rewrite own_put_own. destruct (String.eqb k t); [ discriminate | tauto ].
Qed.

Lemma count_token_adds_key (o : object) (t : string) :
  t <> "__proto__" -> own (count_token o t) t <> None.
Proof.
  intros Ht. unfold count_token, set.
  destruct (String.eqb_spec t "__proto__") as [ E | _ ]; [ now elim Ht | ].
  rewrite own_put_own, String.eqb_refl. discriminate.
Qed.

Lemma freq_has_token (tokens : list string) (k : string) :
  In k tokens -> k <> "__proto__" -> own (freq tokens) k <> None.
Proof.
  rewrite freq_fold. intros Hin Hk. revert Hin.
  assert (G : forall o, own o k <> None \/ In k tokens ->
                        own (fold_left count_token tokens o) k <> None).
  { induction tokens as [ | t tokens IH ]; intros o [ H | H ]; cbn [fold_left].
    - exact H.
    - destruct H.
    - apply IH. left. now apply count_token_keeps_keys.
    - apply IH. destruct H as [ -> | H ]; [ left | now right ].
      now apply count_token_adds_key. }
  intros Hin. apply G. now right.
Qed.

Lemma own_in_keys (o : object) (k : string) : own o k <> None -> In k (keys o).
Proof.
  unfold keys. rewrite in_app_iff.
  induction o as [ | [k0 v0] o IH ]; cbn [own index_keys named_keys]; [ tauto | ].
  destruct (String.eqb_spec k k0) as [ -> | Hne ].
  - intros _. destruct (array_index k0) as [ n | ].
    + left. clear IH. generalize (index_keys o). intros l.
      induction l as [ | [n' k'] l IHl ]; cbn [insert_index map]; [ now left | ].
      destruct (n <=? n')%N; cbn [map snd In]; [ now left | right; exact IHl ].
    + right. now left.
  - intros H. destruct (IH H) as [ H' | H' ]; destruct (array_index k0) as [ n | ].
    + left. clear IH H. revert H'. generalize (index_keys o). intros l.
      induction l as [ | [n' k'] l IHl ]; cbn [insert_index map In]; [ tauto | ].
      destruct (n <=? n')%N; cbn [map snd In]; [ tauto | ].
      intros [ E | H' ]; [ now left | right; now apply IHl ].
    + now left.
    + now right.
    + right. now right.
Qed.

Lemma in_set_of_from (xs seen : list string) (k : string) :
  In k xs -> In k seen \/ In k (set_of_from seen xs).
Proof.
  revert seen. induction xs as [ | x xs IH ]; intros seen; [ intros [] | ].
  cbn [set_of_from In]. intros [ -> | H ].
  - destruct (mem k seen) eqn:Hm; [ left; now apply mem_In | right; now left ].
  - destruct (mem x seen) eqn:Hm.
    + now apply IH.
    + destruct (IH (x :: seen) H) as [ [ -> | H' ] | H' ].
      * right. now left.
      * now left.
      * right. now right.
Qed.

Lemma token_in_allKeys (tokensA tokensB : list string) (k : string) :
  k <> "__proto__" -> In k tokensA \/ In k tokensB ->
  In k (set_of (keys (freq tokensA) ++ keys (freq tokensB))).
Proof.
  intros Hk H. unfold set_of.
  destruct (in_set_of_from (keys (freq tokensA) ++ keys (freq tokensB)) [] k) as [ [] | H' ];
    [ | exact H' ].
  apply in_app_iff.
  destruct H as [ H | H ]; [ left | right ]; now apply own_in_keys, freq_has_token.
Qed.

(** Once a magnitude is [NaN] it stays [NaN], and a key read as [NaN]
    makes it so. *)
Lemma accumulate_nan (a b : object) (k : string) (allKeys : list string) :
  to_number (or_zero (get a k)) = PrimFloat.nan ->
  In k allKeys ->
  magA (accumulate a b allKeys) = PrimFloat.nan.
Proof.
  intros Hk Hin. unfold accumulate. revert Hin.
  assert (G : forall st, magA st = PrimFloat.nan \/ In k allKeys ->
                         magA (fold_left (accumulate_key a b) allKeys st) = PrimFloat.nan).
  { induction allKeys as [ | x xs IH ]; intros st [ H | H ]; cbn [fold_left].
    - exact H.
    - destruct H.
    - apply IH. left.
      unfold accumulate_key. cbn [magA]. rewrite H. apply add_nan_l.
    - destruct H as [ -> | H ]; [ | apply IH; now right ].
      apply IH. left.
      unfold accumulate_key. cbn [magA]. rewrite Hk.
      change (PrimFloat.mul PrimFloat.nan PrimFloat.nan) with PrimFloat.nan.
      apply add_nan_r. }
  intros Hin. apply G. now right.
Qed.

Lemma inherited_key_facts (k : string) :
  inherited_key k = true -> mem k prototype_keys = true /\ k <> "__proto__".
Proof.
  unfold inherited_key. rewrite andb_true_iff, negb_true_iff, String.eqb_neq. tauto.
Qed.

Lemma cosineSimilarity_nan_with_key (tokensA tokensB : list string) (k : string) :
  inherited_key k = true ->
  In k tokensA \/ In k tokensB ->
  cosineSimilarity tokensA tokensB = PrimFloat.nan
  /\ forall floor, ge (cosineSimilarity tokensA tokensB) floor = false.
Proof.
  intros Hk Hin. destruct (inherited_key_facts k Hk) as [Hmem Hne].
  assert (E : cosineSimilarity tokensA tokensB = PrimFloat.nan).
  { unfold cosineSimilarity. cbv zeta.
    rewrite (accumulate_nan (freq tokensA) (freq tokensB) k).
    - change (PrimFloat.sqrt PrimFloat.nan) with PrimFloat.nan.
      rewrite mul_nan_l. change (strict_eq PrimFloat.nan 0) with false. cbv iota.
      apply div_nan_r.
    - now apply prototype_key_reads_nan.
    - now apply token_in_allKeys. }
  split; [ exact E | ]. intros floor. rewrite E. unfold ge. apply leb_nan_r.
Qed.

(** X6. Whenever either token sequence contains a token that names a
    property of [Object.prototype] other than [__proto__] (constructor,
    toString, valueOf, hasOwnProperty, ...), [cosineSimilarity] returns
    [NaN], whatever the other tokens are; such a pair meets no similarity
    floor. *)
Theorem cosineSimilarity_inherited_key (tokensA tokensB : list string) (k : string) :
  inherited_key k = true ->
  In k tokensA \/ In k tokensB ->
  cosineSimilarity tokensA tokensB = PrimFloat.nan
  /\ forall floor, ge (cosineSimilarity tokensA tokensB) floor = false.
Proof. apply cosineSimilarity_nan_with_key. Qed.

Lemma cosineSimilarity_inherited_key_witness :
  cosineSimilarity ["fix"; "the"; "constructor"] ["fix"; "the"; "constructor"]
  = PrimFloat.nan
  /\ forall floor,
      ge (cosineSimilarity ["fix"; "the"; "constructor"] ["fix"; "the"; "constructor"])
         floor = false.
Proof.
  apply (cosineSimilarity_inherited_key
           ["fix"; "the"; "constructor"] ["fix"; "the"; "constructor"] "constructor").
  - reflexivity.
  - left. simpl. tauto.
Defined.

Lemma count_token_proto (o : object) : count_token o "__proto__" = o.
Proof. reflexivity. Qed.

Lemma freq_without_proto (tokens : list string) :
  freq (without_proto tokens) = freq tokens.
Proof.
  rewrite !freq_fold. generalize empty_object.
  induction tokens as [ | t tokens IH ]; intros o; [ reflexivity | ].
  cbn [without_proto filter fold_left].
  destruct (String.eqb_spec t "__proto__") as [ -> | _ ]; cbn [negb].
  - rewrite count_token_proto. apply IH.
  - cbn [fold_left]. apply IH.
Qed.

(** X5. The token [__proto__] is never counted: assigning a count to
    [map["__proto__"]] is swallowed by the prototype setter, so removing
    every such token from a sequence leaves its frequency map unchanged,
    [__proto__] is never one of its keys, and the similarity of two
    sequences is that of the sequences without those tokens. *)
Theorem proto_token_is_dropped (tokensA tokensB : list string) :
  freq (without_proto tokensA) = freq tokensA
  /\ ~ In "__proto__" (keys (freq tokensA))
  /\ cosineSimilarity (without_proto tokensA) (without_proto tokensB)
     = cosineSimilarity tokensA tokensB.
Proof.
  split; [ apply freq_without_proto | ]. split.
  - intros H. apply keys_incl in H.
    rewrite <- freq_without_proto in H. apply freq_incl in H.
    unfold without_proto in H. apply filter_In in H as [_ H]. discriminate.
  - unfold cosineSimilarity. now rewrite !freq_without_proto.
Qed.

Lemma cosineSimilarity_empty_witness :
  cosineSimilarity [] ["one"; "more"; "one"] = 0%float.
Proof.
  apply (proj1 (cosineSimilarity_empty ["one"; "more"; "one"]
                  ltac:(intros t [ <- | [ <- | [ <- | [] ] ] ]; reflexivity))).
  vm_compute. reflexivity.
Defined.

(* ================================================================== *)
(** * What the detectors read, and when they stay silent                *)
(* ================================================================== *)

Lemma consecutive_pairs_length {A : Type} (l : list A) :
  List.length (Spec.consecutive_pairs l) = (List.length l - 1)%nat.
Proof.
  induction l as [ | x [ | y l ] IH ]; [ reflexivity | reflexivity | ].
  change (Spec.consecutive_pairs (x :: y :: l))
    with ((x, y) :: Spec.consecutive_pairs (y :: l)).
  cbn [List.length] in *. lia.
Qed.

Lemma consecutive_pairs_nth {A : Type} (l : list A) :
  forall i a b,
    nth_error l i = Some a -> nth_error l (S i) = Some b ->
    nth_error (Spec.consecutive_pairs l) i = Some (a, b).
Proof.
  induction l as [ | x [ | y l ] IH ]; intros i a b Ha Hb.
  - destruct i; discriminate.
  - destruct i as [ | [ | i ] ]; discriminate.
  - change (Spec.consecutive_pairs (x :: y :: l))
      with ((x, y) :: Spec.consecutive_pairs (y :: l)).
    destruct i as [ | i ].
    + cbn in Ha, Hb. injection Ha as <-. injection Hb as <-. reflexivity.
    + cbn [nth_error]. apply IH; assumption.
Qed.

(** X8. [getGaps] never reads outside its array and never throws: for
    [n] messages it returns [max (n - 1) 0] gaps (none for an empty array or a
    single message), and gap [i] is the timestamp of message [i + 1] minus
    that of message [i], whatever the roles of the two messages. *)
Theorem getGaps_shape (messages : list Message) :
  exists gaps,
    getGaps messages = Ok gaps
    /\ List.length gaps = (List.length messages - 1)%nat
    /\ forall i a b,
         nth_error messages i = Some a -> nth_error messages (S i) = Some b ->
         nth_error gaps i = Some (PrimFloat.sub (timestamp b) (timestamp a)).
Proof.
  exists (Spec.gaps messages). split; [ apply getGaps_gaps | ]. split.
  - unfold Spec.gaps. now rewrite length_map, consecutive_pairs_length.
  - intros i a b Ha Hb. unfold Spec.gaps.
    rewrite nth_error_map, (consecutive_pairs_nth messages i a b Ha Hb). reflexivity.
Qed.

(** X9. [detectLoop], [detectVelocityCollapse] and [detectScopeCreep]
    return a boolean for every conversation and every options record, zero
    and negative thresholds and window sizes included: their loops and
    slices never read an element that is not there. *)
Theorem three_detectors_never_throw (conversation : list Message)
    (loopOptions : option LoopOptions)
    (velocityOptions : option VelocityCollapseOptions)
    (scopeOptions : option ScopeCreepOptions) :
  (exists b, detectLoop conversation loopOptions = Ok b)
  /\ (exists b, detectVelocityCollapse conversation velocityOptions = Ok b)
  /\ (exists b, detectScopeCreep conversation scopeOptions = Ok b).
Proof.
  split; [ apply detectLoop_total | ].
  split; [ apply detectVelocityCollapse_total | apply detectScopeCreep_total ].
Qed.

Lemma last_n_app {A : Type} (n : nat) (l1 l2 : list A) :
  (n <= List.length l2)%nat -> Spec.last_n n (l1 ++ l2) = Spec.last_n n l2.
Proof.
  intros Hn. unfold Spec.last_n. rewrite length_app, skipn_app.
  rewrite skipn_all2 by lia. cbn [app]. f_equal. lia.
Qed.

Lemma all_but_last_n_app {A : Type} (n : nat) (l1 l2 : list A) :
  (n <= List.length l2)%nat ->
  Spec.all_but_last_n n (l1 ++ l2) = l1 ++ Spec.all_but_last_n n l2.
Proof.
  intros Hn. unfold Spec.all_but_last_n. rewrite length_app, firstn_app.
  rewrite firstn_all2 by lia. f_equal. f_equal. lia.
Qed.

Lemma all_but_last_n_length {A : Type} (n : nat) (l : list A) :
  List.length (Spec.all_but_last_n n l) = (List.length l - n)%nat.
Proof. unfold Spec.all_but_last_n. rewrite length_firstn. lia. Qed.

Lemma user_messages_app (older recent : list Message) :
  Spec.user_messages (older ++ recent)
  = Spec.user_messages older ++ Spec.user_messages recent.
Proof. apply filter_app. Qed.

(** X11. [detectLoop] reads only the last [threshold] user messages: once
    a conversation holds at least [threshold] of them (threshold a count,
    zero or more), putting any older messages in front of it does not
    change the answer. *)
Theorem detectLoop_ignores_older (older conversation : list Message)
    (options : option LoopOptions) :
  let t := field options threshold 3 in
  0 <= t ->
  t <= Z.of_nat (List.length (Spec.user_messages conversation)) ->
  detectLoop (older ++ conversation) options = detectLoop conversation options.
Proof.
  intros t Ht Hlen.
  destruct (Z.eq_dec t 0) as [ Hz | Hnz ].
  - now rewrite !detectLoop_threshold_zero.
  - pose proof (detectLoop_threshold_positive (older ++ conversation) options) as E1.
    pose proof (detectLoop_threshold_positive conversation options) as E2.
    cbv zeta in E1, E2. fold t in E1, E2. rewrite E1, E2 by lia.
    rewrite user_messages_app, length_app.
    rewrite last_n_app by lia.
    destruct (Z.ltb_spec (Z.of_nat (List.length (Spec.user_messages older)
                                    + List.length (Spec.user_messages conversation))) t);
      destruct (Z.ltb_spec (Z.of_nat (List.length (Spec.user_messages conversation))) t);
      try reflexivity; lia.
Qed.

Lemma detectLoop_ignores_older_witness :
  detectLoop ([user_says "Something else entirely"; user_says "And another thing"]
              ++ loopConversation) None
  = detectLoop loopConversation None.
Proof.
  apply (detectLoop_ignores_older
           [user_says "Something else entirely"; user_says "And another thing"]
           loopConversation None); vm_compute; discriminate.
Defined.

(** A window of zero messages: the earlier group is empty, its mean length
    is [NaN], and no comparison with [NaN] holds. *)
Lemma detectVelocityCollapse_window_zero (messages : list Message)
    (options : option VelocityCollapseOptions) :
  field options vc_windowSize 4 = 0 ->
  detectVelocityCollapse messages options = Ok false.
Proof.
  intros Hw. rewrite detectVelocityCollapse_unfold. cbv zeta. rewrite Hw.
  change (- 0) with 0. change (0 * 2) with 0.
  destruct (Z.ltb_spec (Z.of_nat (List.length (Spec.user_messages messages))) 0); [ lia | ].
  rewrite slice_empty_prefix.
  change (gt (Spec.mean_length []) 0) with false. reflexivity.
Qed.

Lemma detectScopeCreep_window_zero (messages : list Message)
    (options : option ScopeCreepOptions) :
  field options sc_windowSize 5 = 0 ->
  detectScopeCreep messages options = Ok false.
Proof.
  intros Hw. rewrite detectScopeCreep_unfold. cbv zeta. rewrite Hw.
  change (- 0 * 2) with 0. change (- 0) with 0. change (0 * 2) with 0.
  destruct (Z.ltb_spec (Z.of_nat (List.length (Spec.user_messages messages))) 0); [ lia | ].
  rewrite slice_empty_prefix.
  change (Spec.mean_length []) with PrimFloat.nan.
  rewrite div_nan_r. unfold ge. now rewrite leb_nan_r.
Qed.

(** X13. A window size of zero never triggers: with [windowSize: 0] both
    [detectVelocityCollapse] and [detectScopeCreep] return false for every
    conversation, because the earlier group is then empty and its mean
    length, zero divided by zero, compares false with everything. *)
Theorem window_zero_never_triggers (conversation : list Message)
    (velocityOptions : option VelocityCollapseOptions)
    (scopeOptions : option ScopeCreepOptions) :
  (field velocityOptions vc_windowSize 4 = 0 ->
   detectVelocityCollapse conversation velocityOptions = Ok false)
  /\ (field scopeOptions sc_windowSize 5 = 0 ->
      detectScopeCreep conversation scopeOptions = Ok false).
Proof.
  split; [ apply detectVelocityCollapse_window_zero | apply detectScopeCreep_window_zero ].
Qed.

Lemma window_zero_never_triggers_witness :
  detectVelocityCollapse collapsing_replies
    (Some (mkVelocityCollapseOptions None None (Some 0))) = Ok false
  /\ detectScopeCreep growing_requests
       (Some (mkScopeCreepOptions (Some 0) None)) = Ok false.
Proof.
  split.
  - apply (proj1 (window_zero_never_triggers collapsing_replies
                    (Some (mkVelocityCollapseOptions None None (Some 0))) None)).
    reflexivity.
  - apply (proj2 (window_zero_never_triggers growing_requests None
                    (Some (mkScopeCreepOptions (Some 0) None)))).
    reflexivity.
Defined.

(** X12. [detectScopeCreep] reads only the last [windowSize * 2] user
    messages: once a conversation holds at least that many (window size a
    count, zero or more), putting any older messages in front of it does
    not change the answer. *)
Theorem detectScopeCreep_ignores_older (older conversation : list Message)
    (options : option ScopeCreepOptions) :
  let w := field options sc_windowSize 5 in
  0 <= w ->
  w * 2 <= Z.of_nat (List.length (Spec.user_messages conversation)) ->
  detectScopeCreep (older ++ conversation) options
  = detectScopeCreep conversation options.
Proof.
  intros w Hw Hlen.
  destruct (Z.eq_dec w 0) as [ Hz | Hnz ].
  - now rewrite !detectScopeCreep_window_zero.
  - rewrite !detectScopeCreep_unfold. cbv zeta. fold w.
    rewrite user_messages_app.
    set (old := Spec.user_messages older). set (users := Spec.user_messages conversation).
    fold users in Hlen.
    destruct (Z.ltb_spec (Z.of_nat (List.length (old ++ users))) (w * 2)) as [ H | _ ];
      [ rewrite length_app in H; lia | ].
    destruct (Z.ltb_spec (Z.of_nat (List.length users)) (w * 2)) as [ H | _ ]; [ lia | ].
    rewrite !slice_preceding_window, !slice_last by (try rewrite length_app; lia).
    rewrite all_but_last_n_app by lia.
    rewrite !last_n_app by (try rewrite all_but_last_n_length; lia).
    reflexivity.
Qed.

Lemma detectScopeCreep_ignores_older_witness :
  detectScopeCreep (ten_empty ++ growing_requests) None
  = detectScopeCreep growing_requests None.
Proof.
  apply (detectScopeCreep_ignores_older ten_empty growing_requests None);
    vm_compute; discriminate.
Defined.

(** X14. Too little data for every detector means nothing is signalled:
    when the conversation has fewer user messages than the loop threshold
    and than twice each window size, and fewer substantive assistant
    messages than the saturation threshold, [check] returns
    [{ triggered: false, signals: [] }].  With default options that is every
    conversation with at most two user messages and at most two assistant
    messages of 200 characters or more, the empty conversation included. *)
Theorem check_insufficient_data (conversation : list Message)
    (options : option CheckOptions) :
  let users := Z.of_nat (List.length (Spec.user_messages conversation)) in
  let saturationOptions := sub_options options saturation in
  users < field (sub_options options loop) threshold 3 ->
  users < field (sub_options options velocityCollapse) vc_windowSize 4 * 2 ->
  users < field (sub_options options scopeCreep) sc_windowSize 5 * 2 ->
  Z.of_nat (Spec.count (Spec.substantive (field saturationOptions minAssistantLength 200))
                       conversation)
  < field saturationOptions assistantResponseThreshold 3 ->
  check conversation options = Ok (mkResult false []).
Proof.
  intros users saturationOptions Hloop Hvelocity Hscope Hsaturation.
  apply (check_unfold conversation options false false false false).
  - pose proof (detectLoop_threshold_positive conversation (sub_options options loop)) as E.
    cbv zeta in E. rewrite E by (subst users; lia).
    destruct (Z.ltb_spec (Z.of_nat (List.length (Spec.user_messages conversation)))
                         (field (sub_options options loop) threshold 3));
      [ reflexivity | subst users; lia ].
  - rewrite detectVelocityCollapse_unfold. cbv zeta.
    destruct (Z.ltb_spec (Z.of_nat (List.length (Spec.user_messages conversation)))
                         (field (sub_options options velocityCollapse) vc_windowSize 4 * 2));
      [ reflexivity | subst users; lia ].
  - rewrite detectScopeCreep_unfold. cbv zeta.
    destruct (Z.ltb_spec (Z.of_nat (List.length (Spec.user_messages conversation)))
                         (field (sub_options options scopeCreep) sc_windowSize 5 * 2));
      [ reflexivity | subst users; lia ].
  - rewrite detectSaturation_unfold. cbv zeta. fold saturationOptions.
    rewrite count_filter.
    destruct (Z.ltb_spec
                (Z.of_nat (Spec.count (Spec.substantive (field saturationOptions minAssistantLength 200))
                                      conversation))
                (field saturationOptions assistantResponseThreshold 3));
      [ reflexivity | lia ].
Qed.

Lemma check_insufficient_data_witness :
  check weather None = Ok (mkResult false []).
Proof.
  apply (check_insufficient_data weather None); vm_compute; reflexivity.
Defined.

(* ================================================================== *)
(** * Saturation: timestamps, not positions; patterns as written        *)
(* ================================================================== *)

Lemma filter_andb {A : Type} (p q : A -> bool) (l : list A) :
  filter (fun x => p x && q x) l = filter q (filter p l).
Proof.
  induction l as [ | x l IH ]; [ reflexivity | ].
  cbn [filter]. destruct (p x); cbn [andb filter]; [ | exact IH ].
  destruct (q x); now rewrite IH.
Qed.

Lemma count_andb {A : Type} (p q : A -> bool) (l : list A) :
  Spec.count (fun x => p x && q x) l = Spec.count q (filter p l).
Proof. now rewrite <- !count_filter, filter_andb. Qed.

Lemma count_Permutation {A : Type} (p : A -> bool) (l1 l2 : list A) :
  Permutation l1 l2 -> Spec.count p l1 = Spec.count p l2.
Proof.
  induction 1 as [ | x l1 l2 _ IH | x y l | l1 l2 l3 _ IH1 _ IH2 ]; cbn [Spec.count].
  - reflexivity.
  - now rewrite IH.
  - destruct (p x), (p y); reflexivity.
  - now rewrite IH1.
Qed.

Lemma count_ext {A : Type} (p q : A -> bool) (l : list A) :
  (forall x, p x = q x) -> Spec.count p l = Spec.count q l.
Proof.
  intros H. induction l as [ | x l IH ]; cbn [Spec.count]; [ reflexivity | ].
  now rewrite H, IH.
Qed.

(** X15. [detectSaturation] goes by timestamps, not by positions: two
    conversations with the same assistant messages in the same order, and
    the same user messages in any order and at any positions among them,
    get the same answer (or the same exception). *)
Theorem detectSaturation_ignores_user_positions (c1 c2 : list Message)
    (options : option SaturationOptions) :
  filter is_assistant c1 = filter is_assistant c2 ->
  Permutation (filter is_user c1) (filter is_user c2) ->
  detectSaturation c1 options = detectSaturation c2 options.
Proof.
  intros Hassistant Husers. rewrite !detectSaturation_unfold. cbv zeta.
  assert (E : forall c,
             filter (Spec.substantive (field options minAssistantLength 200)) c
             = filter (fun m => field options minAssistantLength 200
                                <=? Z.of_nat (String.length (content m)))
                      (filter is_assistant c)).
  { intros c. unfold Spec.substantive. apply filter_andb. }
  rewrite !E, Hassistant.
  destruct (_ <? _); [ reflexivity | ].
  destruct (prop _ _) as [ t | e ]; [ | reflexivity ]. cbn [bind].
  assert (F : forall c,
             Spec.count (fun m => (is_user m && gt (timestamp m) t)
                                  && requests_more
                                       (field options requestPatterns default_requestPatterns) m) c
             = Spec.count (fun m => gt (timestamp m) t
                                    && requests_more
                                         (field options requestPatterns default_requestPatterns) m)
                          (filter is_user c)).
  { intros c. rewrite <- count_andb. apply count_ext. intros m.
    now rewrite andb_assoc. }
  rewrite !F. now rewrite (count_Permutation _ _ _ Husers).
Qed.

Lemma detectSaturation_ignores_user_positions_witness :
  detectSaturation asking_for_more None = detectSaturation asking_for_more_reordered None.
Proof.
  apply (detectSaturation_ignores_user_positions asking_for_more asking_for_more_reordered None).
  - reflexivity.
  - exact (Permutation_rev (filter is_user asking_for_more)).
Defined.

Lemma prefix_forall (q : ascii -> bool) (pat : string) :
  forall s, String.prefix pat s = true ->
            string_forall q s = true -> string_forall q pat = true.
Proof.
  induction pat as [ | a pat IH ]; intros s Hp Hs; [ reflexivity | ].
  destruct s as [ | b s ]; [ discriminate | ].
  cbn [String.prefix] in Hp. destruct (ascii_dec a b) as [ -> | _ ]; [ | discriminate ].
  cbn [string_forall] in *. apply andb_true_iff in Hs as [Hb Hs].
  now rewrite Hb, (IH s Hp Hs).
Qed.

(** Whatever holds of every character of a string holds of every
    character of a string it includes. *)
Lemma includes_forall (q : ascii -> bool) (pat : string) :
  forall s, includes s pat = true ->
            string_forall q s = true -> string_forall q pat = true.
Proof.
  induction s as [ | c s IH ]; intros Hi Hs.
  - cbn [includes] in Hi. destruct (String.prefix pat EmptyString) eqn:Hp; [ | discriminate ].
    now apply (prefix_forall q pat EmptyString).
  - cbn [includes] in Hi. destruct (String.prefix pat (String c s)) eqn:Hp.
    + now apply (prefix_forall q pat (String c s)).
    + cbn [string_forall] in Hs. apply andb_true_iff in Hs as [_ Hs]. now apply IH.
Qed.

Lemma toLowerCase_no_upper (s : string) :
  string_forall (fun c => negb (is_upper c)) (toLowerCase s) = true.
Proof.
  induction s as [ | c s IH ]; [ reflexivity | ].
  cbn [toLowerCase string_forall]. now rewrite lower_char_not_upper, IH.
Qed.

Lemma upper_pattern_never_matches (pattern : string) (m : Message) :
  string_forall (fun c => negb (is_upper c)) pattern = false ->
  includes (toLowerCase (content m)) pattern = false.
Proof.
  intros Hu. destruct (includes (toLowerCase (content m)) pattern) eqn:Hi; [ | reflexivity ].
  rewrite (includes_forall _ pattern _ Hi (toLowerCase_no_upper (content m))) in Hu.
  discriminate.
Qed.

Lemma count_none {A : Type} (p : A -> bool) (l : list A) :
  (forall x, p x = false) -> Spec.count p l = 0%nat.
Proof.
  intros H. induction l as [ | x l IH ]; cbn [Spec.count]; [ reflexivity | ].
  now rewrite H.
Qed.

(** X16. Patterns are matched as written against lowercased content: a
    request pattern containing an upper-case letter A-Z matches no message,
    and with a [requestPatterns] list made only of such patterns
    [detectSaturation] (threshold at least one) returns false for every
    conversation. *)
Theorem capitalised_patterns_never_match (conversation : list Message)
    (options : option SaturationOptions) :
  Forall (fun pattern => string_forall (fun c => negb (is_upper c)) pattern = false)
         (field options requestPatterns default_requestPatterns) ->
  (forall m, requests_more (field options requestPatterns default_requestPatterns) m = false)
  /\ (1 <= field options assistantResponseThreshold 3 ->
      detectSaturation conversation options = Ok false).
Proof.
  intros Hpatterns.
  assert (Hnone : forall m,
             requests_more (field options requestPatterns default_requestPatterns) m = false).
  { intros m. unfold requests_more.
    destruct (existsb _ _) eqn:He; [ | reflexivity ].
    apply existsb_exists in He as (pattern & Hin & Hi).
    rewrite Forall_forall in Hpatterns.
    rewrite (upper_pattern_never_matches pattern m (Hpatterns pattern Hin)) in Hi.
    discriminate. }
  split; [ exact Hnone | ]. intros HT.
  destruct (detectSaturation_total conversation options HT) as [b Hb].
  rewrite Hb. rewrite detectSaturation_unfold in Hb. cbv zeta in Hb.
  destruct (_ <? _); [ now symmetry | ].
  destruct (prop _ _) as [ t | e ]; [ | discriminate ]. cbn [bind] in Hb.
  rewrite count_none in Hb; [ now symmetry | ].
  intros m. now rewrite Hnone, andb_false_r.
Qed.

Lemma capitalised_patterns_never_match_witness :
  detectSaturation asking_for_more (Some capitalised_patterns) = Ok false.
Proof.
  apply (proj2 (capitalised_patterns_never_match asking_for_more (Some capitalised_patterns)
                  ltac:(repeat constructor))).
  vm_compute. discriminate.
Defined.

(* ================================================================== *)
(** * nil-space: what counts as a direct question                       *)
(* ================================================================== *)

Lemma trimStart_spaces (ws : string) :
  string_forall is_space ws = true -> trimStart ws = EmptyString.
Proof.
  induction ws as [ | c ws IH ]; [ reflexivity | ].
  cbn [string_forall trimStart]. intros H. apply andb_true_iff in H as [Hc Hws].
  rewrite Hc. now apply IH.
Qed.

Lemma trimStart_spaces_app (ws s : string) :
  string_forall is_space ws = true -> trimStart (ws ++ s) = trimStart s.
Proof.
  induction ws as [ | c ws IH ]; [ reflexivity | ].
  cbn [string_forall append trimStart]. intros H. apply andb_true_iff in H as [Hc Hws].
  rewrite Hc. now apply IH.
Qed.

Lemma trimEnd_spaces (ws : string) :
  string_forall is_space ws = true -> trimEnd ws = EmptyString.
Proof.
  induction ws as [ | c ws IH ]; [ reflexivity | ].
  cbn [string_forall trimEnd]. intros H. apply andb_true_iff in H as [Hc Hws].
  now rewrite (IH Hws), Hc.
Qed.

Lemma trimEnd_app_spaces (s ws : string) :
  string_forall is_space ws = true -> trimEnd (s ++ ws) = trimEnd s.
Proof.
  intros Hws. induction s as [ | c s IH ]; [ now apply trimEnd_spaces | ].
  cbn [append trimEnd]. now rewrite IH.
Qed.

Lemma trim_app_spaces (s ws : string) :
  string_forall is_space ws = true -> trim (s ++ ws) = trim s.
Proof.
  intros Hws. unfold trim. induction s as [ | c s IH ].
  - cbn [append]. now rewrite (trimStart_spaces ws Hws).
  - cbn [append trimStart]. destruct (is_space c); [ exact IH | ].
    change (String c (s ++ ws)) with (String c s ++ ws)%string.
    now apply trimEnd_app_spaces.
Qed.

(** White space around a message does not reach [trim]'s result. *)
Lemma trim_padding (before message after : string) :
  string_forall is_space before = true ->
  string_forall is_space after = true ->
  trim (before ++ message ++ after) = trim message.
Proof.
  intros Hb Ha. unfold trim at 1. rewrite trimStart_spaces_app by exact Hb.
  now apply trim_app_spaces.
Qed.

Lemma toLowerCase_trimStart (s : string) :
  toLowerCase (trimStart s) = trimStart (toLowerCase s).
Proof.
  induction s as [ | c s IH ]; [ reflexivity | ].
  cbn [trimStart toLowerCase]. rewrite is_space_lower.
  destruct (is_space c); [ exact IH | reflexivity ].
Qed.

Lemma toLowerCase_trimEnd (s : string) :
  toLowerCase (trimEnd s) = trimEnd (toLowerCase s).
Proof.
  induction s as [ | c s IH ]; [ reflexivity | ].
  cbn [trimEnd toLowerCase]. rewrite <- IH, is_space_lower.
  destruct (trimEnd s); cbn [toLowerCase]; [ | reflexivity ].
  destruct (is_space c); reflexivity.
Qed.

Lemma toLowerCase_trim (s : string) : toLowerCase (trim s) = trim (toLowerCase s).
Proof. unfold trim. now rewrite toLowerCase_trimEnd, toLowerCase_trimStart. Qed.

Lemma trimStart_starts_without_space (s : string) :
  starts_without_space (trimStart s) = true.
Proof.
  induction s as [ | c s IH ]; [ reflexivity | ].
  cbn [trimStart]. destruct (is_space c) eqn:Hc; [ exact IH | ].
  cbn [starts_without_space]. now rewrite Hc.
Qed.

Lemma trimEnd_starts_without_space (s : string) :
  starts_without_space s = true -> starts_without_space (trimEnd s) = true.
Proof.
  destruct s as [ | c s ]; [ reflexivity | ].
  cbn [starts_without_space trimEnd]. intros Hc.
  destruct (trimEnd s); [ | exact Hc ].
  apply negb_true_iff in Hc. rewrite Hc. cbn [starts_without_space]. now rewrite Hc.
Qed.

Lemma trimStart_fixed (s : string) :
  starts_without_space s = true -> trimStart s = s.
Proof.
  destruct s as [ | c s ]; [ reflexivity | ].
  cbn [starts_without_space trimStart]. intros Hc.
  apply negb_true_iff in Hc. now rewrite Hc.
Qed.

Lemma trimEnd_idempotent (s : string) : trimEnd (trimEnd s) = trimEnd s.
Proof.
  induction s as [ | c s IH ]; [ reflexivity | ].
  cbn [trimEnd]. destruct (trimEnd s) as [ | c' r ] eqn:E.
  - destruct (is_space c) eqn:Hc; [ reflexivity | ].
    cbn [trimEnd]. now rewrite Hc.
  - change (trimEnd (String c (String c' r)))
      with (match trimEnd (String c' r) with
            | EmptyString => if is_space c then EmptyString else String c EmptyString
            | String c'' r' => String c (String c'' r')
            end).
    now rewrite IH.
Qed.

Lemma trim_idempotent (s : string) : trim (trim s) = trim s.
Proof.
  unfold trim.
  rewrite (trimStart_fixed (trimEnd (trimStart s)))
    by apply trimEnd_starts_without_space, trimStart_starts_without_space.
  apply trimEnd_idempotent.
Qed.

(** X17. [isDirectQuestion] does not see white space around the message:
    any run of spaces, tabs or line breaks before or after it leaves the
    answer unchanged. *)
Theorem isDirectQuestion_ignores_padding (before message after : string) :
  string_forall is_space before = true ->
  string_forall is_space after = true ->
  isDirectQuestion (before ++ message ++ after) = isDirectQuestion message.
Proof.
  intros Hb Ha. unfold isDirectQuestion. now rewrite trim_padding.
Qed.

Lemma isDirectQuestion_ignores_padding_witness :
  isDirectQuestion ("  " ++ "Anyone there?" ++ String "010" " ")
  = isDirectQuestion "Anyone there?".
Proof.
  apply (isDirectQuestion_ignores_padding "  " "Anyone there?" (String "010" " "));
    reflexivity.
Defined.

(** X18. [isDirectQuestion] does not see letter case: two messages with
    the same lowercased form get the same answer, and a message and its
    lowercased form do. *)
Theorem isDirectQuestion_ignores_case (m1 m2 : string) :
  (toLowerCase m1 = toLowerCase m2 -> isDirectQuestion m1 = isDirectQuestion m2)
  /\ isDirectQuestion (toLowerCase m1) = isDirectQuestion m1.
Proof.
  unfold isDirectQuestion. rewrite !toLowerCase_trim. split.
  - intros E. now rewrite E.
  - now rewrite toLowerCase_idempotent.
Qed.

Lemma isDirectQuestion_ignores_case_witness :
  isDirectQuestion "ARE YOU THERE?" = isDirectQuestion "Are you there?".
Proof.
  apply (proj1 (isDirectQuestion_ignores_case "ARE YOU THERE?" "Are you there?")).
  reflexivity.
Defined.

Lemma direct_question_text (message : string) :
  isDirectQuestion message = true ->
  trim message <> EmptyString /\ toLowerCase (trim message) <> "done".
Proof.
  unfold isDirectQuestion. cbv zeta. cbn [existsb checks].
  rewrite !orb_true_iff, !String.eqb_eq.
  intros H. split.
  - intros E. rewrite E in H. cbn [toLowerCase] in H.
    repeat (destruct H as [ H | H ]; try discriminate).
  - intros E. rewrite E in H.
    repeat (destruct H as [ H | H ]; try discriminate).
Qed.

(** X19. A greeting typed at the command line always reaches the model:
    when the input line is a direct question, the line printed for it is
    the whisper for the trimmed input (or the middle dot if that whisper is
    empty), whatever the coin would have said; the line is never skipped as
    blank and never taken for "done". *)
Theorem greeting_is_always_whispered (whisper : string -> string)
    (input : string) (random : float) :
  isDirectQuestion input = true ->
  nil whisper (trim input) random = Some (whisper (trim input))
  /\ turn whisper input random
     = Printed (if truthy_string (whisper (trim input))
                then ("  " ++ whisper (trim input))%string
                else silence_line).
Proof.
  intros H. destruct (direct_question_text input H) as [Hne Hdone].
  assert (Hnil : nil whisper (trim input) random = Some (whisper (trim input))).
  { unfold nil.
    assert (E : isDirectQuestion (trim input) = isDirectQuestion input).
    { unfold isDirectQuestion. now rewrite trim_idempotent. }
    now rewrite E, H. }
  split; [ exact Hnil | ].
  unfold turn. cbv zeta. unfold truthy_string at 1.
  destruct (String.eqb_spec (trim input) EmptyString) as [ E | _ ]; [ now elim Hne | ].
  cbn [negb].
  destruct (String.eqb_spec (toLowerCase (trim input)) "done") as [ E | _ ];
    [ now elim Hdone | ].
  rewrite Hnil. destruct (truthy_string (whisper (trim input))); reflexivity.
Qed.

Lemma greeting_is_always_whispered_witness :
  nil (fun _ => "here") (trim "  Hello?  ") 0%float = Some "here"
  /\ turn (fun _ => "here") "  Hello?  " 0%float = Printed "  here".
Proof.
  apply (greeting_is_always_whispered (fun _ => "here") "  Hello?  " 0%float).
  reflexivity.
Defined.

(* ================================================================== *)
(** * What each detector can see of a user message                      *)
(* ================================================================== *)

Section SliceMap.

Context {A B : Type} (f : A -> B).

Lemma slice_map (l : list A) (start : Z) (fin : option Z) :
  slice (map f l) start fin = map f (slice l start fin).
Proof. unfold slice. now rewrite length_map, skipn_map, firstn_map. Qed.

Lemma consecutive_pairs_map (l : list A) :
  Spec.consecutive_pairs (map f l)
  = map (fun xy => (f (fst xy), f (snd xy))) (Spec.consecutive_pairs l).
Proof.
  induction l as [ | x [ | y l ] IH ]; [ reflexivity | reflexivity | ].
  change (Spec.consecutive_pairs (x :: y :: l))
    with ((x, y) :: Spec.consecutive_pairs (y :: l)).
  change (map f (x :: y :: l)) with (f x :: map f (y :: l)).
  change (Spec.consecutive_pairs (f x :: map f (y :: l)))
    with ((f x, f y) :: Spec.consecutive_pairs (map f (y :: l))).
  now rewrite IH.
Qed.

Lemma count_map (p : B -> bool) (l : list A) :
  Spec.count p (map f l) = Spec.count (fun x => p (f x)) l.
Proof.
  induction l as [ | x l IH ]; cbn [map Spec.count]; [ reflexivity | ].
  now rewrite IH.
Qed.

End SliceMap.

(** The answer of [detectLoop], computed from the token lists of the user
    messages alone. *)
Lemma detectLoop_from_tokens (messages : list Message) (options : option LoopOptions) :
  detectLoop messages options
  = let t := field options threshold 3 in
    let floor := field options similarityFloor 0.6%float in
    let tokens := map (fun m => tokenise (content m)) (Spec.user_messages messages) in
    let window := slice tokens (- t - 1) None in
    if Z.of_nat (List.length window) <? t then Ok false
    else Ok (forallb (fun ab => ge (cosineSimilarity (fst ab) (snd ab)) floor)
                     (Spec.consecutive_pairs (slice window (- t) None))).
Proof.
  rewrite detectLoop_unfold. cbv zeta.
  rewrite !slice_map, length_map, consecutive_pairs_map, forallb_map_pairs.
  reflexivity.
Qed.

(** X21. [detectLoop] sees a user message only through its token list:
    two conversations whose user messages have, one by one, the same tokens
    get the same answer, whatever their timestamps, letter case, punctuation
    and spacing, and whatever the assistant wrote. *)
Theorem detectLoop_reads_tokens (c1 c2 : list Message) (options : option LoopOptions) :
  map (fun m => tokenise (content m)) (Spec.user_messages c1)
  = map (fun m => tokenise (content m)) (Spec.user_messages c2) ->
  detectLoop c1 options = detectLoop c2 options.
Proof.
  intros H. rewrite !detectLoop_from_tokens. cbv zeta. now rewrite H.
Qed.

Lemma detectLoop_reads_tokens_witness :
  detectLoop loopConversation None
  = detectLoop [ mkMessage user "REWRITE the intro: paragraph!" 5%float;
                 mkMessage user "rewrite... the intro paragraph, differently" 4%float;
                 mkMessage user "  Rewrite the intro paragraph again, please?" 3%float ]
               None.
Proof.
  apply (detectLoop_reads_tokens
           loopConversation
           [ mkMessage user "REWRITE the intro: paragraph!" 5%float;
             mkMessage user "rewrite... the intro paragraph, differently" 4%float;
             mkMessage user "  Rewrite the intro paragraph again, please?" 3%float ]
           None).
  vm_compute. reflexivity.
Defined.

Lemma pair_around {A : Type} (l : list A) (x : A) :
  In x l -> (2 <= List.length l)%nat ->
  exists xy, In xy (Spec.consecutive_pairs l) /\ (fst xy = x \/ snd xy = x).
Proof.
  induction l as [ | a [ | b l ] IH ]; intros Hin Hlen.
  - destruct Hin.
  - cbn in Hlen. lia.
  - change (Spec.consecutive_pairs (a :: b :: l))
      with ((a, b) :: Spec.consecutive_pairs (b :: l)).
    destruct Hin as [ -> | Hin ].
    + exists (x, b). split; [ now left | now left ].
    + destruct l as [ | c l ].
      * destruct Hin as [ -> | [] ]. exists (a, x). split; [ now left | now right ].
      * destruct (IH Hin) as (xy & Hxy & Hx); [ cbn [List.length]; lia | ].
        exists xy. split; [ now right | exact Hx ].
Qed.

(** X20. A user message with the word "constructor" silences loop
    detection: if, with a threshold of two or more, any of the last
    [threshold] user messages has a token that names a property inherited
    from [Object.prototype] other than [__proto__] (which the frequency map
    drops), every pair it is part of has similarity [NaN] and [detectLoop]
    returns false, however alike the messages are. *)
Theorem detectLoop_inherited_key (conversation : list Message)
    (options : option LoopOptions) (m : Message) (k : string) :
  let t := field options threshold 3 in
  let users := Spec.user_messages conversation in
  2 <= t ->
  t <= Z.of_nat (List.length users) ->
  In m (Spec.last_n (Z.to_nat t) users) ->
  inherited_key k = true ->
  In k (tokenise (content m)) ->
  detectLoop conversation options = Ok false.
Proof.
  intros t users Ht Hlen Hm Hk Hin.
  pose proof (detectLoop_threshold_positive conversation options) as E.
  cbv zeta in E. fold t users in E. rewrite E by lia. clear E.
  destruct (Z.ltb_spec (Z.of_nat (List.length users)) t); [ reflexivity | ].
  f_equal. apply not_true_is_false. intros Hall.
  rewrite forallb_forall in Hall.
  destruct (pair_around _ m Hm) as (xy & Hxy & Hside).
  { rewrite last_n_length. lia. }
  specialize (Hall xy Hxy). unfold pushed_similarity in Hall.
  destruct (cosineSimilarity_nan_with_key
              (tokenise (content (fst xy))) (tokenise (content (snd xy))) k Hk) as [_ Hnan].
  { destruct Hside as [ -> | -> ]; [ now left | now right ]. }
  rewrite Hnan in Hall. discriminate.
Qed.

(** The token [__proto__] is the exception: the frequency map never
    holds it, and three identical requests that contain it are detected. *)
Lemma detectLoop_proto_token :
  detectLoop [ user_says "fix __proto__ now"; user_says "fix __proto__ now";
               user_says "fix __proto__ now" ] None = Ok true.
Proof. vm_compute. reflexivity. Qed.

Lemma detectLoop_inherited_key_witness :
  detectLoop constructor_requests None = Ok false.
Proof.
  apply (detectLoop_inherited_key constructor_requests None
           (user_says "Rewrite the constructor") "constructor").
  - vm_compute. discriminate.
  - vm_compute. discriminate.
  - vm_compute. now left.
  - reflexivity.
  - vm_compute. tauto.
Defined.

Lemma gaps_timestamps (group : list Message) :
  Spec.gaps group
  = map (fun ab => PrimFloat.sub (snd ab) (fst ab))
        (Spec.consecutive_pairs (map timestamp group)).
Proof.
  unfold Spec.gaps. now rewrite consecutive_pairs_map, map_map.
Qed.

Section SameView.

Context (u1 u2 : list Message).

Lemma same_mean_length (start : Z) (fin : option Z) :
  map content_length u1 = map content_length u2 ->
  Spec.mean_length (slice u1 start fin) = Spec.mean_length (slice u2 start fin).
Proof.
  intros H. unfold Spec.mean_length. now rewrite <- !slice_map, H.
Qed.

Lemma same_gaps (start : Z) (fin : option Z) :
  map timestamp u1 = map timestamp u2 ->
  Spec.gaps (slice u1 start fin) = Spec.gaps (slice u2 start fin).
Proof.
  intros H. rewrite !gaps_timestamps. now rewrite <- !slice_map, H.
Qed.

Lemma same_questions (start : Z) (fin : option Z) :
  map has_question u1 = map has_question u2 ->
  Spec.questions (slice u1 start fin) = Spec.questions (slice u2 start fin).
Proof.
  intros H. unfold Spec.questions.
  rewrite <- !(count_map has_question (fun b => b)).
  now rewrite <- !slice_map, H.
Qed.

Lemma same_length {B : Type} (f : Message -> B) :
  map f u1 = map f u2 -> List.length u1 = List.length u2.
Proof. intros H. now rewrite <- (length_map f u1), H, length_map. Qed.

End SameView.

Lemma content_length_view {B : Type} (u1 u2 : list Message) (g : Message -> B) :
  map (fun m => (String.length (content m), g m)) u1
  = map (fun m => (String.length (content m), g m)) u2 ->
  map content_length u1 = map content_length u2 /\ map g u1 = map g u2.
Proof.
  intros H. split.
  - apply (f_equal (map (fun p => num_of_nat (fst p)))) in H.
    now rewrite !map_map in H.
  - apply (f_equal (map snd)) in H. now rewrite !map_map in H.
Qed.

(** X22. [detectVelocityCollapse] sees a user message only through its
    length and its timestamp, and [detectScopeCreep] only through its length
    and whether it contains a question mark: two conversations whose user
    messages agree, one by one, on those get the same answer, whatever the
    messages say and whatever the assistant wrote. *)
Theorem velocity_and_scope_read_lengths (c1 c2 : list Message)
    (velocityOptions : option VelocityCollapseOptions)
    (scopeOptions : option ScopeCreepOptions) :
  (map (fun m => (String.length (content m), timestamp m)) (Spec.user_messages c1)
   = map (fun m => (String.length (content m), timestamp m)) (Spec.user_messages c2) ->
   detectVelocityCollapse c1 velocityOptions = detectVelocityCollapse c2 velocityOptions)
  /\ (map (fun m => (String.length (content m), has_question m)) (Spec.user_messages c1)
      = map (fun m => (String.length (content m), has_question m)) (Spec.user_messages c2) ->
      detectScopeCreep c1 scopeOptions = detectScopeCreep c2 scopeOptions).
Proof.
  split; intros H.
  - destruct (content_length_view _ _ _ H) as [HL HT].
    rewrite !detectVelocityCollapse_unfold. cbv zeta.
    rewrite (same_length _ _ _ HL).
    destruct (_ <? _); [ reflexivity | ].
    rewrite !(same_mean_length (Spec.user_messages c1) (Spec.user_messages c2)) by exact HL.
    rewrite !(same_gaps (Spec.user_messages c1) (Spec.user_messages c2)) by exact HT.
    reflexivity.
  - destruct (content_length_view _ _ _ H) as [HL HQ].
    rewrite !detectScopeCreep_unfold. cbv zeta.
    rewrite (same_length _ _ _ HL).
    destruct (_ <? _); [ reflexivity | ].
    rewrite !(same_mean_length (Spec.user_messages c1) (Spec.user_messages c2)) by exact HL.
    rewrite !(same_questions (Spec.user_messages c1) (Spec.user_messages c2)) by exact HQ.
    reflexivity.
Qed.

Lemma velocity_and_scope_read_lengths_witness :
  detectVelocityCollapse collapsing_replies None = detectVelocityCollapse collapsing_lengths None
  /\ detectScopeCreep growing_requests None = detectScopeCreep growing_lengths None.
Proof.
  split.
  - apply (proj1 (velocity_and_scope_read_lengths collapsing_replies collapsing_lengths None None)).
    vm_compute. reflexivity.
  - apply (proj2 (velocity_and_scope_read_lengths growing_requests growing_lengths None None)).
    vm_compute. reflexivity.
Defined.
